(** * gator/fragments.py: segmentation and counting of text fragments

    A shallow embedding of [src/gator/fragments.py].  Python strings are
    sequences of Unicode code points; the string methods the module calls
    ([replace], [strip], [startswith], [split], [splitlines], [isspace],
    [isalnum], [count], [join]) and the fragment of [re] that
    [PARAGRAH_RE] needs are embedded first, the module's own functions
    after them, and the properties last. *)

From Stdlib Require Import String Ascii NArith Arith Lia Bool List.
Import ListNotations.

(** ** Python values *)

(** A character is a Unicode code point, a [str] a sequence of them. *)
Definition char := N.
Definition str := list char.

(** A string literal of the source, as a [str]. *)
Fixpoint lit (s : string) : str :=
  match s with
  | EmptyString => []
  | String a r => N_of_ascii a :: lit r
  end.

(** Python exceptions that the embedded code can meet. *)
Inductive exn : Type :=
| ValueError
| OSError
| AttributeError
| UnicodeDecodeError.

(** The result of a Python call: a value or a raised exception. *)
Inductive py (A : Type) : Type :=
| Ok (a : A)
| Raise (e : exn).

Arguments Ok {A} a.
Arguments Raise {A} e.

Definition py_bind {A B : Type} (m : py A) (k : A -> py B) : py B :=
  match m with
  | Ok a => k a
  | Raise e => Raise e
  end.

Notation "x <- m ;; k" := (py_bind m (fun x => k))
  (at level 61, m at next level, right associativity).

(** ** String primitives of CPython *)

Module Str.

Definition eqc (a b : char) : bool := N.eqb a b.

(** Line feed and carriage return. *)
Definition LF : char := 10%N.
Definition CR : char := 13%N.

(** [str.__eq__]. *)
Fixpoint eqs (a b : str) : bool :=
  match a, b with
  | [], [] => true
  | x :: a', y :: b' => eqc x y && eqs a' b'
  | _, _ => false
  end.

(** [s.startswith(prefix)]. *)
Fixpoint startswith (s prefix : str) {struct prefix} : bool :=
  match prefix with
  | [] => true
  | p :: prefix' =>
      match s with
      | [] => false
      | c :: s' => eqc c p && startswith s' prefix'
      end
  end.

(** [Py_UNICODE_ISSPACE]: the code points [str.isspace], [str.strip] and
    [str.split] treat as whitespace. *)
Definition isspace_char (c : char) : bool :=
  ((9 <=? c) && (c <=? 13) || (28 <=? c) && (c <=? 32)
   || (c =? 133) || (c =? 160) || (c =? 5760)
   || (8192 <=? c) && (c <=? 8202)
   || (c =? 8232) || (c =? 8233) || (c =? 8239) || (c =? 8287)
   || (c =? 12288))%N.

(** [Py_UNICODE_ISLINEBREAK]: the code points at which [str.splitlines]
    ends a line. *)
Definition islinebreak (c : char) : bool :=
  ((10 <=? c) && (c <=? 13) || (28 <=? c) && (c <=? 30)
   || (c =? 133) || (c =? 8232) || (c =? 8233))%N.

(** [s.isspace()]: every character is whitespace and there is one. *)
Definition isspace (s : str) : bool :=
  match s with
  | [] => false
  | _ => forallb isspace_char s
  end.

(** [s.lstrip()], [s.rstrip()] and [s.strip()] without arguments. *)
Fixpoint lstrip (s : str) : str :=
  match s with
  | [] => []
  | c :: s' => if isspace_char c then lstrip s' else s
  end.

Definition rstrip (s : str) : str := rev (lstrip (rev s)).

Definition strip (s : str) : str := rstrip (lstrip s).

(** [s.replace(old, new)] for a non-empty [old]: scan from the left, and at
    every occurrence of [old] emit [new] and jump over the occurrence.
    [skip] counts the characters of the occurrence still to jump over. *)
Fixpoint replace_from (old new : str) (skip : nat) (s : str) : str :=
  match s with
  | [] => []
  | c :: s' =>
      match skip with
      | S k => replace_from old new k s'
      | O =>
          if startswith s old
          then new ++ replace_from old new (length old - 1) s'
          else c :: replace_from old new 0 s'
      end
  end.

(** [s.replace(old, new)]; an empty [old] matches before every character
    and at the end. *)
Definition replace (s old new : str) : str :=
  match old with
  | [] => new ++ flat_map (fun c => c :: new) s
  | _ => replace_from old new 0 s
  end.

(** [s.count(sub)] for a non-empty [sub]: the same scan, counting. *)
Fixpoint count_from (sub : str) (skip : nat) (s : str) : nat :=
  match s with
  | [] => 0
  | _ :: s' =>
      match skip with
      | S k => count_from sub k s'
      | O =>
          if startswith s sub
          then S (count_from sub (length sub - 1) s')
          else count_from sub 0 s'
      end
  end.

(** [s.count(sub)]; the empty [sub] is found [len(s) + 1] times. *)
Definition count (s sub : str) : nat :=
  match sub with
  | [] => S (length s)
  | _ => count_from sub 0 s
  end.

(** [s.split()] without arguments: the maximal runs of characters that are
    not whitespace.  [cur] is the run being read, reversed. *)
Definition flush (cur : str) (rest : list str) : list str :=
  match cur with
  | [] => rest
  | _ => rev cur :: rest
  end.

Fixpoint split_from (cur : str) (s : str) : list str :=
  match s with
  | [] => flush cur []
  | c :: s' =>
      if isspace_char c
      then flush cur (split_from [] s')
      else split_from (c :: cur) s'
  end.

Definition split (s : str) : list str := split_from [] s.

(** [s.splitlines(keepends=False)]: a line ends at a line break, ["\r\n"]
    counting as one; the text after the last line break is a line only when
    it is not empty.  [cur] is the line being read, reversed. *)
Fixpoint splitlines_from (cur : str) (s : str) : list str :=
  match s with
  | [] => flush cur []
  | c :: s' =>
      if islinebreak c
      then rev cur ::
           (if eqc c CR
            then match s' with
                 | d :: s'' =>
                     if eqc d LF then splitlines_from [] s''
                     else splitlines_from [] s'
                 | [] => splitlines_from [] s'
                 end
            else splitlines_from [] s')
      else splitlines_from (c :: cur) s'
  end.

Definition splitlines (s : str) : list str := splitlines_from [] s.

(** [sep.join(parts)]. *)
Fixpoint join (sep : str) (parts : list str) : str :=
  match parts with
  | [] => []
  | [p] => p
  | p :: parts' => p ++ sep ++ join sep parts'
  end.

(** [line.decode()] on a [str]: Python 3 strings have no [decode], the
    attribute lookup raises [AttributeError]. *)
Definition decode (line : str) : py str := Raise AttributeError.

(** [c.isalnum()] on one character.  Letters and digits of ASCII are
    written out; for the code points from 128 on the answer is that of the
    interpreter's Unicode database, [unicode_isalnum]. *)
Definition isalnum_char (unicode_isalnum : char -> bool) (c : char) : bool :=
  if (c <? 128)%N
  then ((48 <=? c) && (c <=? 57) || (65 <=? c) && (c <=? 90)
        || (97 <=? c) && (c <=? 122))%N
  else unicode_isalnum c.

(** [s.isalnum()]: every character is alphanumeric and there is one. *)
Definition isalnum (unicode_isalnum : char -> bool) (s : str) : bool :=
  match s with
  | [] => false
  | _ => forallb (isalnum_char unicode_isalnum) s
  end.

(** [x is y] against the empty string, of which CPython keeps one object. *)
Definition is_empty (s : str) : bool :=
  match s with
  | [] => true
  | _ => false
  end.

(** [min(l)] of a list of numbers; [ValueError] on the empty list. *)
Definition min (l : list nat) : py nat :=
  match l with
  | [] => Raise ValueError
  | n :: l' => Ok (fold_left Nat.min l' n)
  end.

End Str.

(** ** The fragment of [re] behind [PARAGRAH_RE] *)

Module Re.

(** Patterns: a literal, [.+?] (one or more characters other than a line
    feed, as few as possible), [$], concatenation and alternation. *)
Inductive regex : Type :=
| Lit (l : str)
| AnyPlusLazy
| Dollar
| Seq (a b : regex)
| Alt (a b : regex).

(** [.+?] followed by the rest of the pattern [k]: take one character that
    is not a line feed, try [k], and take one character more when [k]
    fails. *)
Fixpoint any_plus_lazy (k : str -> option str) (s : str) : option str :=
  match s with
  | [] => None
  | c :: s' =>
      if Str.eqc c Str.LF then None
      else match k s' with
           | Some r => Some r
           | None => any_plus_lazy k s'
           end
  end.

(** [$] without [re.MULTILINE] holds at the end of the string and just
    before a line feed that ends the string. *)
Definition at_dollar (s : str) : bool :=
  match s with
  | [] => true
  | [c] => Str.eqc c Str.LF
  | _ => false
  end.

(** The backtracking matcher: [exec r k s] matches [r] at the start of [s]
    and hands what is left to [k]; the answer is the text left after the
    whole match. *)
Fixpoint exec (r : regex) (k : str -> option str) (s : str) : option str :=
  match r with
  | Lit l => if Str.startswith s l then k (skipn (length l) s) else None
  | AnyPlusLazy => any_plus_lazy k s
  | Dollar => if at_dollar s then k s else None
  | Seq a b => exec a (exec b k) s
  | Alt a b =>
      match exec a k s with
      | Some r => Some r
      | None => exec b k s
      end
  end.

(** The text [r] matches at the start of [s], if it matches. *)
Definition match_here (r : regex) (s : str) : option str :=
  match exec r Some s with
  | Some rest => Some (firstn (length s - length rest) s)
  | None => None
  end.

(** [pattern.findall(s)]: the matches from left to right, each search
    starting where the last match ended.  [skip] counts the characters of
    the last match still to jump over. *)
Fixpoint findall_from (r : regex) (skip : nat) (s : str) : list str :=
  match s with
  | [] =>
      match skip, match_here r [] with
      | O, Some m => [m]
      | _, _ => []
      end
  | _ :: s' =>
      match skip with
      | S k => findall_from r k s'
      | O =>
          match match_here r s with
          | Some m => m :: findall_from r (length m - 1) s'
          | None => findall_from r 0 s'
          end
      end
  end.

Definition findall (r : regex) (s : str) : list str := findall_from r 0 s.

End Re.

(** ** The file system that [pathlib.Path] reads *)

(** [is_file p] says whether a regular file is at path [p]; [read_text p]
    is its decoded text, or the exception reading it raises. *)
Record FileSystem : Type := {
  is_file : str -> bool;
  read_text : str -> py str
}.

(** ** gator/fragments.py *)

Module Fragments.

Definition FILE_SEPARATOR : str := lit "/".

Definition CODE_FENCE_MARKER : str := lit "```".
Definition GATORGRADER_REPLACEMENT : str := lit "GATORGRADER_REPLACEMENT".
(** [r"(.+?\n\n|.+?$)"]; the one group spans the whole pattern, so
    [findall] returns the text of each match. *)
Definition PARAGRAH_RE : Re.regex :=
  Re.Alt (Re.Seq Re.AnyPlusLazy (Re.Lit [Str.LF; Str.LF]))
         (Re.Seq Re.AnyPlusLazy Re.Dollar).
Definition SECTION_MARKER : str := lit "#".

Definition NEWLINE : str := [Str.LF].
Definition NOTHING : str := [].
Definition SPACE : str := lit " ".

Definition DOUBLE_NEWLINE : str := NEWLINE ++ NEWLINE.

(** Determines if a writing candidate is a paragraph. *)
Definition is_paragraph (candidate : str) : bool :=
  let candidate := Str.strip candidate in
  if Str.startswith candidate SECTION_MARKER then false
  else if Str.startswith candidate CODE_FENCE_MARKER then false
  else true.

(** Retrieves the paragraphs in the writing. *)
Definition get_paragraphs (contents : str) (blank_replace : bool) : list str :=
  let contents :=
    if blank_replace then Str.replace contents SPACE NOTHING else contents in
  let contents := Str.replace contents DOUBLE_NEWLINE GATORGRADER_REPLACEMENT in
  let contents := Str.replace contents NEWLINE SPACE in
  let contents := Str.replace contents GATORGRADER_REPLACEMENT DOUBLE_NEWLINE in
  let paragraphs := Re.findall PARAGRAH_RE contents in
  fold_left
    (fun matching_paragraphs paragraph =>
       if is_paragraph paragraph
       then matching_paragraphs ++ [paragraph]
       else matching_paragraphs)
    paragraphs [].

(** Returns True if a line is a blank one and False otherwise. *)
Definition is_blank_line (line : option str) : bool :=
  match line with
  | Some l =>
      if negb (Str.is_empty l) && negb (Str.isspace l) then false else true
  | None => true
  end.

(** One round of the loop of [get_line_list]: decode the line, keep the
    line itself on [AttributeError], and append what is not blank. *)
Definition get_line_list_step (actual_content : list str) (line : str)
  : py (list str) :=
  current_line_decoded <-
    match Str.decode line with
    | Ok d => Ok d
    | Raise AttributeError => Ok line
    | Raise e => Raise e
    end ;;
  if negb (is_blank_line (Some current_line_decoded))
  then Ok (actual_content ++ [current_line_decoded])
  else Ok actual_content.

(** Returns a list of lines from any type of input string.  The content is
    a [str] here (the module is given text, not bytes); its lines have no
    [decode]. *)
Definition get_line_list (content : str) : py (list str) :=
  fold_left
    (fun acc line => actual_content <- acc ;;
                     get_line_list_step actual_content line)
    (Str.splitlines content) (Ok []).

(** Counts the number of paragraphs in the writing. *)
Definition count_paragraphs (contents : str) : nat :=
  let replace_blank_inputs := true in
  let matching_paragraphs := get_paragraphs contents replace_blank_inputs in
  length matching_paragraphs.

Section Words.

(** The interpreter's answer to [isalnum] beyond ASCII. *)
Variable unicode_isalnum : char -> bool.

(** The body of the loop of [count_words]: the number of words of one
    paragraph. *)
Definition count_words_step (para : str) : nat :=
  let para := Str.replace para NEWLINE SPACE in
  let words :=
    Str.split
      (Str.join NOTHING
         (map (fun ch => if Str.isalnum unicode_isalnum [ch] then [ch]
                         else SPACE)
              para)) in
  length words.

(** Counts the minimum number of words across all paragraphs in writing. *)
Definition count_words (contents : str) : py nat :=
  let replace_blank_inputs := false in
  let paragraphs := get_paragraphs contents replace_blank_inputs in
  let word_counts :=
    fold_left (fun word_counts para => word_counts ++ [count_words_step para])
              paragraphs [] in
  match word_counts with
  | _ :: _ => Str.min word_counts
  | [] => Ok 0
  end.

End Words.

(** Counts the specified string fragment in the string contents. *)
Definition count_specified_fragment (contents fragment : str) : nat :=
  let fragment_count := Str.count contents fragment in
  fragment_count.

Section Files.

Variable fs : FileSystem.

(** Counts fragments for the file in the directory (or contents) and a
    fragment. *)
Definition count_fragments (chosen_fragment : str)
  (checking_function : str -> str -> py nat)
  (given_file containing_directory contents : str) : py nat :=
  let file_for_checking := containing_directory ++ FILE_SEPARATOR ++ given_file in
  let file_contents_count := 0 in
  if negb (is_file fs file_for_checking) && negb (Str.is_empty contents)
  then checking_function contents chosen_fragment
  else if is_file fs file_for_checking && Str.is_empty contents
  then file_contents <- read_text fs file_for_checking ;;
       checking_function file_contents chosen_fragment
  else Ok file_contents_count.

(** Counts lines for the file in the directory (or contents). *)
Definition count_lines (given_file containing_directory contents : str)
  : py nat :=
  let file_for_checking := containing_directory ++ FILE_SEPARATOR ++ given_file in
  let file_contents_count := 0 in
  if negb (is_file fs file_for_checking) && negb (Str.is_empty contents)
  then line_list <- get_line_list contents ;;
       Ok (length line_list)
  else if is_file fs file_for_checking && Str.is_empty contents
  then file_contents <- read_text fs file_for_checking ;;
       line_list <- get_line_list file_contents ;;
       Ok (length line_list)
  else Ok file_contents_count.

End Files.

Section Checks.

(** [util.greater_than_equal_exacted] of [gator/util.py], which is not
    part of this development: the comparison of a count with the expected
    count is taken as given, whatever it returns. *)
Variables Expected Verdict : Type.
Variable greater_than_equal_exacted : nat -> Expected -> bool -> py Verdict.

Variable fs : FileSystem.

(** Determines if the fragment count is greater than expected. *)
Definition specified_fragment_greater_than_count (chosen_fragment : str)
  (checking_function : str -> str -> py nat) (expected_count : Expected)
  (given_file containing_directory contents : str) (exact : bool)
  : py Verdict :=
  file_fragment_count <-
    count_fragments fs chosen_fragment checking_function
      given_file containing_directory contents ;;
  greater_than_equal_exacted file_fragment_count expected_count exact.

(** Determines if the line count is greater than expected. *)
Definition specified_source_greater_than_count (expected_count : Expected)
  (given_file containing_directory contents : str) (exact : bool)
  : py Verdict :=
  file_line_count <- count_lines fs given_file containing_directory contents ;;
  greater_than_equal_exacted file_line_count expected_count exact.

End Checks.

End Fragments.

Import Fragments.

(** ** Notions the properties are stated with *)

(** [sub in s]: [sub] occurs somewhere in [s]. *)
Fixpoint contains (s sub : str) : bool :=
  match s with
  | [] => Str.startswith [] sub
  | _ :: s' => Str.startswith s sub || contains s' sub
  end.

(** Lines 49 to 51 of [get_paragraphs]: double line feeds become the
    sentinel, the line feeds left become spaces, the sentinel becomes a
    double line feed again. *)
Definition newline_pass (contents : str) : str :=
  Str.replace
    (Str.replace
       (Str.replace contents DOUBLE_NEWLINE GATORGRADER_REPLACEMENT)
       NEWLINE SPACE)
    GATORGRADER_REPLACEMENT DOUBLE_NEWLINE.

(** Line 49 alone: the double line feeds of [s] become the sentinel. *)
Definition protect (s : str) : str :=
  Str.replace_from DOUBLE_NEWLINE GATORGRADER_REPLACEMENT 0 s.

(** Line 47 of [get_paragraphs]: spaces are removed when [blank_replace]
    is set. *)
Definition space_pass (contents : str) (blank_replace : bool) : str :=
  if blank_replace then Str.replace contents SPACE NOTHING else contents.

Definition SP : char := 32%N.

(** The text with every line feed read from the left: two line feeds in a
    row stay as they are, a line feed alone becomes a space. *)
Fixpoint keep_double_newlines (s : str) : str :=
  match s with
  | [] => []
  | c :: t =>
      if Str.eqc c Str.LF
      then match t with
           | d :: t' =>
               if Str.eqc d Str.LF
               then Str.LF :: Str.LF :: keep_double_newlines t'
               else SP :: keep_double_newlines t
           | [] => [SP]
           end
      else c :: keep_double_newlines t
  end.

(** A line feed becomes a space, every other character stays. *)
Definition lf_to_space (c : char) : char :=
  if Str.eqc c Str.LF then SP else c.

(** *** Markers *)

Definition HASH : char := 35%N.

(** The trimmed candidate starts with one or more [#], or with three
    backticks. *)
Definition starts_with_marker (candidate : str) : Prop :=
  (exists n rest, 0 < n /\ Str.strip candidate = repeat HASH n ++ rest)
  \/ (exists rest, Str.strip candidate = lit "```" ++ rest).

(** *** Lines *)

(** The text cut at every line break, ["\r\n"] being one line break: one
    segment more than there are line breaks. *)
Fixpoint segments (s : str) : list str :=
  match s with
  | [] => [[]]
  | c :: t =>
      if Str.islinebreak c
      then [] ::
           (if Str.eqc c Str.CR
            then match t with
                 | d :: t' => if Str.eqc d Str.LF then segments t' else segments t
                 | [] => segments t
                 end
            else segments t)
      else match segments t with
           | seg :: rest => (c :: seg) :: rest
           | [] => [[c]]
           end
  end.

(** [p] written before the first segment. *)
Definition prepend (p : str) (l : list str) : list str :=
  match l with
  | seg :: rest => (p ++ seg) :: rest
  | [] => [p]
  end.

(** The text cut at every line feed, and nowhere else. *)
Fixpoint segments_at_lf (s : str) : list str :=
  match s with
  | [] => [[]]
  | c :: t =>
      if Str.eqc c Str.LF then [] :: segments_at_lf t
      else prepend [c] (segments_at_lf t)
  end.

(** The segments without the last one when that is empty. *)
Fixpoint drop_trailing_empty (l : list str) : list str :=
  match l with
  | [] => []
  | [[]] => []
  | x :: l' => x :: drop_trailing_empty l'
  end.

(** The lines of a text: split at line breaks, no trailing empty
    segment. *)
Definition lines (s : str) : list str := drop_trailing_empty (segments s).

(** A line that is empty or holds nothing but whitespace. *)
Definition blank (line : str) : bool := forallb Str.isspace_char line.

(** *** Words *)

(** The tokens of a paragraph: line feeds and every character that is not
    alphanumeric become spaces, and the text is split at runs of
    whitespace. *)
Definition tokens (unicode_isalnum : char -> bool) (para : str) : list str :=
  Str.split
    (map (fun ch => if Str.eqc ch Str.LF
                       || negb (Str.isalnum_char unicode_isalnum ch)
                    then SP else ch)
         para).

(** [n] is the least number of [l], and 0 when [l] is empty. *)
Definition least_or_zero (n : nat) (l : list nat) : Prop :=
  match l with
  | [] => n = 0
  | _ => In n l /\ Forall (fun m => n <= m) l
  end.

(** *** Occurrences *)

(** [sub] occurs in [s] at position [i]. *)
Definition occurs_at (sub s : str) (i : nat) : Prop :=
  exists a b, s = a ++ sub ++ b /\ length a = i.

(** [l] lists from left to right the starts of occurrences of [sub] in [s]:
    none starts before [lo], and each starts where the one before has ended
    or later, and at a later position (which tells the occurrences of an
    empty [sub] apart). *)
Fixpoint disjoint_from (sub s : str) (lo : nat) (l : list nat) : Prop :=
  match l with
  | [] => True
  | i :: l' =>
      lo <= i /\ occurs_at sub s i
      /\ disjoint_from sub s (Nat.max (i + length sub) (S i)) l'
  end.

(** [l] is a family of occurrences of [sub] in [s] that do not overlap. *)
Definition non_overlapping (sub s : str) (l : list nat) : Prop :=
  disjoint_from sub s 0 l.

(** *** Texts of the examples *)

Definition LFLF : str := [Str.LF; Str.LF].

Definition hello_world : str :=
  lit "Hello world." ++ LFLF ++ lit "One two three four.".

Definition wrapped : str :=
  lit "This is one" ++ [Str.LF] ++ lit "paragraph that" ++ [Str.LF]
  ++ lit "wraps." ++ LFLF ++ lit "Second one.".



Definition three_lines : str :=
  lit "one" ++ [Str.LF] ++ lit "  " ++ [Str.CR; Str.LF] ++ lit "two" ++ [Str.LF].

(** A Unicode table without alphanumeric characters beyond ASCII, and a
    file system without files. *)
Definition ascii_only : char -> bool := fun _ => false.

Definition no_files : FileSystem :=
  {| is_file := fun _ => false; read_text := fun _ => Raise OSError |}.

(** A file system with the one file [p], of text [text]. *)
Definition one_file (p text : str) : FileSystem :=
  {| is_file := fun q => Str.eqs q p;
     read_text := fun q => if Str.eqs q p then Ok text else Raise OSError |}.

(** No character of [s] is a line feed. *)
Definition no_lf (s : str) : Prop := Forall (fun x => Str.eqc x Str.LF = false) s.

(** The file system with the file [dir/f.md], of text [aa]. *)
Definition dir_file : FileSystem := one_file (lit "dir/f.md") (lit "aa").

(** [count_specified_fragment] as the checking function of
    [count_fragments]. *)
Definition checking : str -> str -> py nat :=
  fun contents fragment => Ok (count_specified_fragment contents fragment).

(** *** Candidates *)

(** The characters of [s] up to its first line feed, and the text from that
    line feed on. *)
Fixpoint take_run (s : str) : str * str :=
  match s with
  | [] => ([], [])
  | c :: t =>
      if Str.eqc c Str.LF then ([], s)
      else let (run, rest) := take_run t in (c :: run, rest)
  end.

(** What [PARAGRAH_RE] matches at the start of [s], read off the text: the
    run up to the first line feed, which must not be empty, together with
    the double line feed after it, or alone when the text ends after it or
    after one more line feed. *)
Definition candidate_at (s : str) : option str :=
  let (run, rest) := take_run s in
  match run with
  | [] => None
  | _ :: _ =>
      match rest with
      | [] => Some run
      | [_] => Some run
      | _ :: d :: _ => if Str.eqc d Str.LF then Some (run ++ LFLF) else None
      end
  end.

(** A candidate: a run without line feeds that is not empty, with or
    without a double line feed after it. *)
Definition candidate_shape (m : str) : Prop :=
  exists run, run <> [] /\ no_lf run /\ (m = run \/ m = run ++ LFLF).

(** Line feeds come in pairs: every run of line feeds of [s] has even
    length. *)
Fixpoint paired_lf (s : str) : bool :=
  match s with
  | [] => true
  | c :: t =>
      if Str.eqc c Str.LF
      then match t with
           | d :: t' => Str.eqc d Str.LF && paired_lf t'
           | [] => false
           end
      else paired_lf t
  end.

(** The characters of [s] that are not line feeds. *)
Definition without_lf (s : str) : str :=
  filter (fun c => negb (Str.eqc c Str.LF)) s.

(** The characters of [s] that are not spaces. *)
Definition without_spaces (s : str) : str :=
  filter (fun c => negb (Str.eqc c SP)) s.

(** Every character of [s] is whitespace. *)
Definition all_whitespace (s : str) : Prop :=
  Forall (fun c => Str.isspace_char c = true) s.

(** The list [words] that the loop of [count_words] builds for one
    paragraph (lines 105 and 106); [count_words_step] is its length. *)
Definition paragraph_words (unicode_isalnum : char -> bool) (para : str)
  : list str :=
  let para := Str.replace para NEWLINE SPACE in
  Str.split
    (Str.join NOTHING
       (map (fun ch => if Str.isalnum unicode_isalnum [ch] then [ch]
                       else SPACE)
            para)).

(** A file system with the one file [p], which cannot be decoded. *)
Definition unreadable_file (p : str) : FileSystem :=
  {| is_file := fun q => Str.eqs q p;
     read_text := fun _ => Raise UnicodeDecodeError |}.

(** A comparison to try the checks with: at least the expected count, or
    exactly the expected count. *)
Definition at_least_or_exactly (count expected : nat) (exact : bool) : py bool :=
  Ok (if exact then Nat.eqb count expected else Nat.leb expected count).

(** *** The trimmed candidate *)

(** The text neither starts nor ends with whitespace. *)
Definition edge_not_space (core : str) : Prop :=
  match core with
  | [] => True
  | c :: _ =>
      Str.isspace_char c = false /\ Str.isspace_char (last core c) = false
  end.

(** [core] is [candidate] trimmed of whitespace: the candidate is [core]
    with whitespace only before and after it, and [core] has no whitespace
    at either end. *)
Definition trims_to (candidate core : str) : Prop :=
  exists w1 w2,
    all_whitespace w1 /\ all_whitespace w2
    /\ candidate = w1 ++ core ++ w2
    /\ edge_not_space core.

(** The text starts with one or more [#], or with three backticks. *)
Definition marked (core : str) : Prop :=
  (exists n rest, 0 < n /\ core = repeat HASH n ++ rest)
  \/ (exists rest, core = lit "```" ++ rest).

(** *** Lines between line feeds *)

(** The lines of a text when only the line feed ends a line: split at
    line feeds, no trailing empty segment. *)
Definition newline_lines (s : str) : list str :=
  drop_trailing_empty (segments_at_lf s).

(** Two letters with a vertical tab between them. *)
Definition tabbed_pair : str := lit "a" ++ [11%N] ++ lit "b".

(** * Properties *)

(** ** Strings *)

Lemma eqc_eq (a b : char) : Str.eqc a b = true <-> a = b.
Proof. unfold Str.eqc. apply N.eqb_eq. Qed.

Lemma eqc_refl (a : char) : Str.eqc a a = true.
Proof. apply eqc_eq. reflexivity. Qed.

Lemma startswith_app (p x : str) : Str.startswith (p ++ x) p = true.
Proof.
  induction p as [|a p IH]; simpl; [reflexivity|].
  rewrite eqc_refl. exact IH.
Qed.

Lemma startswith_iff (s p : str) :
  Str.startswith s p = true <-> exists r, s = p ++ r.
Proof.
  revert s. induction p as [|a p IH]; intros s; simpl.
  - split; [intros _; exists s; reflexivity | reflexivity].
  - destruct s as [|c s].
    + split; [discriminate | intros [r H]; discriminate].
    + rewrite andb_true_iff, eqc_eq, IH. split.
      * intros [-> [r ->]]. exists r. reflexivity.
      * intros [r H]. injection H as -> ->. split; [reflexivity | exists r; reflexivity].
Qed.

Lemma skipn_cons_inv {A : Type} (k : nat) (l : list A) (x : A) (rest : list A) :
  skipn k l = x :: rest -> skipn (S k) l = rest /\ In x l.
Proof.
  revert l. induction k as [|k IH]; intros l H.
  - simpl in H. subst l. split; [reflexivity | left; reflexivity].
  - destruct l as [|y l]; [discriminate|].
    simpl in H. destruct (IH l H) as [E I]. split; [exact E | right; exact I].
Qed.

(** ** [str.replace] *)

Lemma replace_from_skip (old new p x : str) :
  Str.replace_from old new (length p) (p ++ x) = Str.replace_from old new 0 x.
Proof. induction p as [|a p IH]; simpl; [reflexivity | exact IH]. Qed.

Lemma replace_from_hit (old new x : str) :
  old <> [] ->
  Str.replace_from old new 0 (old ++ x) = new ++ Str.replace_from old new 0 x.
Proof.
  destruct old as [|o old]; [congruence|]. intros _.
  change ((o :: old) ++ x) with (o :: (old ++ x)).
  cbn [Str.replace_from].
  change (o :: old ++ x) with ((o :: old) ++ x).
  rewrite startswith_app. f_equal.
  replace (length (o :: old) - 1) with (length old) by (simpl; lia).
  apply replace_from_skip.
Qed.

Lemma replace_from_miss (old new : str) (c : char) (x : str) :
  Str.startswith (c :: x) old = false ->
  Str.replace_from old new 0 (c :: x) = c :: Str.replace_from old new 0 x.
Proof. intros H. cbn [Str.replace_from]. rewrite H. reflexivity. Qed.

Lemma replace_char (a b : char) (s : str) :
  Str.replace_from [a] [b] 0 s = map (fun c => if Str.eqc c a then b else c) s.
Proof.
  induction s as [|c s IH]; [reflexivity|].
  cbn [Str.replace_from Str.startswith length Nat.sub map].
  destruct (Str.eqc c a); simpl; rewrite IH; reflexivity.
Qed.

(** ** The newline pass of [get_paragraphs] *)

Lemma newline_pass_eq (s : str) :
  newline_pass s =
  Str.replace_from GATORGRADER_REPLACEMENT DOUBLE_NEWLINE 0
    (map lf_to_space (protect s)).
Proof.
  unfold newline_pass, protect.
  change (Str.replace (Str.replace s DOUBLE_NEWLINE GATORGRADER_REPLACEMENT)
            NEWLINE SPACE)
    with (Str.replace_from [Str.LF] [SP] 0
            (Str.replace_from DOUBLE_NEWLINE GATORGRADER_REPLACEMENT 0 s)).
  rewrite replace_char. reflexivity.
Qed.

Lemma protect_double (t : str) :
  protect (Str.LF :: Str.LF :: t) = GATORGRADER_REPLACEMENT ++ protect t.
Proof.
  unfold protect.
  apply (replace_from_hit DOUBLE_NEWLINE GATORGRADER_REPLACEMENT t).
  discriminate.
Qed.

Lemma protect_other (c : char) (t : str) :
  Str.startswith (c :: t) DOUBLE_NEWLINE = false ->
  protect (c :: t) = c :: protect t.
Proof. intros H. unfold protect. apply replace_from_miss. exact H. Qed.

Lemma startswith_double_inv (s : str) :
  Str.startswith s DOUBLE_NEWLINE = true ->
  exists t, s = Str.LF :: Str.LF :: t.
Proof. intros H. apply startswith_iff in H. exact H. Qed.

(** The sentinel holds neither a line feed nor a space. *)
Lemma sentinel_chars (x : char) :
  In x GATORGRADER_REPLACEMENT -> x <> Str.LF /\ x <> SP.
Proof.
  intros H.
  assert (F : forallb (fun y => negb (Str.eqc y Str.LF) && negb (Str.eqc y SP))
                GATORGRADER_REPLACEMENT = true) by reflexivity.
  rewrite forallb_forall in F. specialize (F x H).
  apply andb_true_iff in F. destruct F as [F1 F2].
  rewrite negb_true_iff in F1, F2.
  split; intros E; subst x; discriminate.
Qed.

Lemma sentinel_fixed : map lf_to_space GATORGRADER_REPLACEMENT = GATORGRADER_REPLACEMENT.
Proof. reflexivity. Qed.

(** No proper suffix of the sentinel starts the sentinel again: an
    occurrence of it cannot overlap another one. *)
Lemma sentinel_unbordered (k : nat) (x : str) :
  Str.startswith (GATORGRADER_REPLACEMENT ++ x) (skipn k GATORGRADER_REPLACEMENT) = true ->
  k = 0 \/ length GATORGRADER_REPLACEMENT <= k.
Proof.
  intros H.
  do 23 (destruct k as [|k]; [first [left; reflexivity | vm_compute in H; discriminate]|]).
  right. vm_compute. lia.
Qed.

(** Where the sentinel starts the text after the first two replacements,
    it was written there by the first of them or was in the input. *)
Lemma sentinel_origin (s : str) (k : nat) :
  Str.startswith (map lf_to_space (protect s)) (skipn k GATORGRADER_REPLACEMENT) = true ->
  Str.startswith s (skipn k GATORGRADER_REPLACEMENT) = true
  \/ (k = 0 /\ Str.startswith s DOUBLE_NEWLINE = true).
Proof.
  revert k. induction s as [|c t IH]; intros k H.
  - left. exact H.
  - destruct (Str.startswith (c :: t) DOUBLE_NEWLINE) eqn:D.
    + destruct (startswith_double_inv _ D) as [t' E].
      injection E as -> ->.
      rewrite protect_double, map_app, sentinel_fixed in H.
      destruct (sentinel_unbordered _ _ H) as [-> | L].
      * right. split; [reflexivity | exact D].
      * left. rewrite skipn_all2 by exact L. reflexivity.
    + rewrite (protect_other _ _ D) in H. cbn [map] in H.
      destruct (skipn k GATORGRADER_REPLACEMENT) as [|x rest] eqn:K.
      * left. reflexivity.
      * destruct (skipn_cons_inv _ _ _ _ K) as [K' I].
        cbn [Str.startswith] in H. apply andb_true_iff in H.
        destruct H as [H1 H2]. rewrite <- K' in H2.
        destruct (IH _ H2) as [G | [G _]]; [|discriminate].
        left. cbn [Str.startswith]. rewrite K' in G. rewrite G, andb_true_r.
        apply eqc_eq in H1. apply eqc_eq.
        destruct (sentinel_chars _ I) as [N1 N2].
        unfold lf_to_space in H1.
        destruct (Str.eqc c Str.LF); congruence.
Qed.

Lemma contains_cons (c : char) (t sub : str) :
  contains (c :: t) sub = false ->
  Str.startswith (c :: t) sub = false /\ contains t sub = false.
Proof. cbn [contains]. intros H. apply orb_false_iff in H. exact H. Qed.

Lemma keep_double_newlines_other (c : char) (t : str) :
  Str.startswith (c :: t) DOUBLE_NEWLINE = false ->
  keep_double_newlines (c :: t) = lf_to_space c :: keep_double_newlines t.
Proof.
  intros H. cbn [keep_double_newlines]. unfold lf_to_space.
  destruct (Str.eqc c Str.LF) eqn:E; [|reflexivity].
  destruct t as [|d t']; [reflexivity|].
  destruct (Str.eqc d Str.LF) eqn:E'; [|reflexivity].
  cbn in H. unfold Str.eqc, Str.LF in *. rewrite E, E' in H. discriminate.
Qed.

Lemma newline_pass_bounded (n : nat) (c : str) :
  length c <= n ->
  contains c GATORGRADER_REPLACEMENT = false ->
  newline_pass c = keep_double_newlines c.
Proof.
  revert c. induction n as [|n IH]; intros c L H.
  - destruct c; [reflexivity | simpl in L; lia].
  - destruct c as [|a t]; [reflexivity|].
    destruct (contains_cons _ _ _ H) as [H0 Ht].
    rewrite newline_pass_eq.
    destruct (Str.startswith (a :: t) DOUBLE_NEWLINE) eqn:D.
    + destruct (startswith_double_inv _ D) as [t' E].
      injection E as -> ->.
      destruct (contains_cons _ _ _ Ht) as [_ Ht'].
      rewrite protect_double, map_app, sentinel_fixed.
      rewrite replace_from_hit by discriminate.
      rewrite <- newline_pass_eq, IH; [reflexivity | simpl in L; lia | exact Ht'].
    + rewrite (keep_double_newlines_other _ _ D).
      assert (M : Str.startswith (map lf_to_space (protect (a :: t)))
                    GATORGRADER_REPLACEMENT = false).
      { destruct (Str.startswith (map lf_to_space (protect (a :: t)))
                    GATORGRADER_REPLACEMENT) eqn:M; [|reflexivity].
        destruct (sentinel_origin (a :: t) 0 M) as [G | [_ G]].
        - change (Str.startswith (a :: t) GATORGRADER_REPLACEMENT = true) in G.
          congruence.
        - congruence. }
      rewrite (protect_other _ _ D) in *. cbn [map] in *.
      rewrite (replace_from_miss _ _ _ _ M).
      rewrite <- newline_pass_eq, IH; [reflexivity | simpl in L; lia | exact Ht].
Qed.

(** ** [get_paragraphs] as a composition *)

Lemma fold_left_keep {A : Type} (f : A -> bool) (l acc : list A) :
  fold_left (fun m x => if f x then m ++ [x] else m) l acc = acc ++ filter f l.
Proof.
  revert acc. induction l as [|x l IH]; intros acc; simpl.
  - rewrite app_nil_r. reflexivity.
  - rewrite IH. destruct (f x); [rewrite <- app_assoc|]; reflexivity.
Qed.

Lemma fold_left_collect {A B : Type} (f : A -> B) (l : list A) (acc : list B) :
  fold_left (fun m x => m ++ [f x]) l acc = acc ++ map f l.
Proof.
  revert acc. induction l as [|x l IH]; intros acc; simpl.
  - rewrite app_nil_r. reflexivity.
  - rewrite IH, <- app_assoc. reflexivity.
Qed.

Lemma get_paragraphs_eq (contents : str) (blank_replace : bool) :
  get_paragraphs contents blank_replace =
  filter is_paragraph
    (Re.findall PARAGRAH_RE (newline_pass (space_pass contents blank_replace))).
Proof. unfold get_paragraphs. rewrite fold_left_keep. reflexivity. Qed.

(** ** [is_paragraph] *)

Lemma is_paragraph_false (candidate : str) :
  is_paragraph candidate = false <->
  Str.startswith (Str.strip candidate) SECTION_MARKER = true
  \/ Str.startswith (Str.strip candidate) CODE_FENCE_MARKER = true.
Proof.
  unfold is_paragraph.
  destruct (Str.startswith (Str.strip candidate) SECTION_MARKER);
    destruct (Str.startswith (Str.strip candidate) CODE_FENCE_MARKER);
    intuition discriminate.
Qed.

Lemma starts_with_hashes (s : str) :
  Str.startswith s SECTION_MARKER = true <->
  exists n rest, 0 < n /\ s = repeat HASH n ++ rest.
Proof.
  rewrite startswith_iff. split.
  - intros [r ->]. exists 1, r. split; [lia | reflexivity].
  - intros [n [rest [L ->]]]. destruct n as [|n]; [lia|].
    exists (repeat HASH n ++ rest). reflexivity.
Qed.

(** ** [str.splitlines] and [get_line_list] *)

Lemma segments_not_nil (s : str) : segments s <> [].
Proof.
  destruct s as [|c t]; simpl; [discriminate|].
  destruct (Str.islinebreak c); [discriminate|].
  destruct (segments t); discriminate.
Qed.

Lemma drop_trailing_empty_cons (x : str) (l : list str) :
  l <> [] -> drop_trailing_empty (x :: l) = x :: drop_trailing_empty l.
Proof. destruct l; [congruence|]. destruct x; reflexivity. Qed.

Lemma prepend_nil (l : list str) : l <> [] -> prepend [] l = l.
Proof. destruct l; [congruence | reflexivity]. Qed.

Lemma prepend_prepend (p q : str) (l : list str) :
  l <> [] -> prepend p (prepend q l) = prepend (p ++ q) l.
Proof. destruct l; [congruence|]. intros _. simpl. rewrite app_assoc. reflexivity. Qed.

Lemma segments_char (c : char) (t : str) :
  Str.islinebreak c = false -> segments (c :: t) = prepend [c] (segments t).
Proof.
  intros H. cbn [segments]. rewrite H.
  destruct (segments t) eqn:E; [|reflexivity].
  destruct (segments_not_nil _ E).
Qed.

(** On a text whose only line breaks are line feeds, the lines are the
    pieces between line feeds. *)
Lemma segments_lf_only (s : str) :
  Forall (fun x => Str.islinebreak x = true -> x = Str.LF) s ->
  segments s = segments_at_lf s.
Proof.
  induction 1 as [|c t C T IH]; [reflexivity|].
  destruct (Str.islinebreak c) eqn:B.
  - rewrite (C eq_refl). cbn. rewrite IH. reflexivity.
  - rewrite (segments_char _ _ B), IH. cbn [segments_at_lf].
    destruct (Str.eqc c Str.LF) eqn:E; [|reflexivity].
    apply eqc_eq in E. subst c. discriminate.
Qed.

Lemma splitlines_from_bounded (n : nat) (s cur : str) :
  length s <= n ->
  Str.splitlines_from cur s = drop_trailing_empty (prepend (rev cur) (segments s)).
Proof.
  revert s cur. induction n as [|n IH]; intros s cur L.
  - destruct s; [|simpl in L; lia].
    destruct cur as [|a cur]; [reflexivity|].
    cbn [Str.splitlines_from Str.flush segments prepend].
    rewrite app_nil_r. destruct (rev (a :: cur)) eqn:E; [|reflexivity].
    apply (f_equal (@length char)) in E. rewrite length_rev in E. discriminate.
  - destruct s as [|c t].
    + apply IH. simpl. lia.
    + destruct (Str.islinebreak c) eqn:B.
      * cbn [Str.splitlines_from segments]. rewrite B.
        cbn [prepend]. rewrite app_nil_r.
        assert (T : forall u, length u <= n ->
                  Str.splitlines_from [] u = drop_trailing_empty (segments u)).
        { intros u Lu. rewrite (IH u [] Lu). cbn [rev].
          rewrite prepend_nil by apply segments_not_nil. reflexivity. }
        simpl in L.
        destruct (Str.eqc c Str.CR).
        -- destruct t as [|d t'].
           ++ rewrite drop_trailing_empty_cons by apply segments_not_nil.
              rewrite T by (simpl; lia). reflexivity.
           ++ destruct (Str.eqc d Str.LF);
                rewrite drop_trailing_empty_cons by apply segments_not_nil;
                rewrite T by (simpl in *; lia); reflexivity.
        -- rewrite drop_trailing_empty_cons by apply segments_not_nil.
           rewrite T by lia. reflexivity.
      * cbn [Str.splitlines_from]. rewrite B.
        rewrite IH by (simpl in L; lia).
        rewrite (segments_char _ _ B), prepend_prepend by apply segments_not_nil.
        reflexivity.
Qed.

Lemma splitlines_lines (s : str) : Str.splitlines s = lines s.
Proof.
  unfold Str.splitlines, lines.
  rewrite (splitlines_from_bounded (length s) s [] (le_n _)).
  cbn [rev]. rewrite prepend_nil by apply segments_not_nil. reflexivity.
Qed.

Lemma is_blank_line_blank (line : str) : is_blank_line (Some line) = blank line.
Proof.
  destruct line as [|a l]; [reflexivity|].
  unfold is_blank_line, blank. cbn [Str.is_empty Str.isspace negb andb].
  destruct (forallb Str.isspace_char (a :: l)); reflexivity.
Qed.

Lemma get_line_list_fold (l acc : list str) :
  fold_left
    (fun acc line => actual_content <- acc ;;
                     get_line_list_step actual_content line)
    l (Ok acc)
  = Ok (acc ++ filter (fun line => negb (blank line)) l).
Proof.
  revert acc. induction l as [|x l IH]; intros acc.
  - simpl. rewrite app_nil_r. reflexivity.
  - cbn [fold_left py_bind filter]. unfold get_line_list_step.
    cbn [Str.decode py_bind]. rewrite is_blank_line_blank.
    destruct (negb (blank x)); rewrite IH; [rewrite <- app_assoc|]; reflexivity.
Qed.

Lemma get_line_list_lines (content : str) :
  get_line_list content = Ok (filter (fun line => negb (blank line)) (lines content)).
Proof.
  unfold get_line_list. rewrite get_line_list_fold, splitlines_lines. reflexivity.
Qed.

Lemma count_lines_literal (fs : FileSystem)
  (given_file containing_directory c : str) :
  is_file fs (containing_directory ++ FILE_SEPARATOR ++ given_file) = false ->
  count_lines fs given_file containing_directory c
  = Ok (length (filter (fun line => negb (blank line)) (lines c))).
Proof.
  intros F. unfold count_lines. rewrite F. cbn [negb andb].
  destruct c as [|a c]; [reflexivity|].
  cbn [Str.is_empty negb]. rewrite get_line_list_lines. reflexivity.
Qed.

(** C6, as the code has it: for literal contents (no file at the path),
    [count_lines] returns the number of lines of the contents - split at
    the line boundaries of [str.splitlines], which are the line feed, the
    carriage return, the two together as one, and the vertical tab, form
    feed, file, group and record separators, next line, line separator
    and paragraph separator, without a trailing empty segment - that are
    left after every line that is empty or holds only whitespace is
    removed; [get_line_list] is these lines in the order of the source,
    none of them joined with another. *)
Theorem count_lines_counts_nonblank_lines (fs : FileSystem)
  (given_file containing_directory c : str) :
  is_file fs (containing_directory ++ FILE_SEPARATOR ++ given_file) = false ->
  get_line_list c = Ok (filter (fun line => negb (blank line)) (lines c))
  /\ count_lines fs given_file containing_directory c
     = Ok (length (filter (fun line => negb (blank line)) (lines c))).
Proof.
  intros F. split; [apply get_line_list_lines | apply count_lines_literal; exact F].
Qed.

Lemma count_lines_counts_nonblank_lines_witness :
  is_file no_files (lit "dir" ++ FILE_SEPARATOR ++ lit "f.md") = false
  /\ get_line_list three_lines = Ok [lit "one"; lit "two"]
  /\ count_lines no_files (lit "f.md") (lit "dir") three_lines = Ok 2.
Proof.
  split; [reflexivity|].
  exact (count_lines_counts_nonblank_lines no_files (lit "f.md") (lit "dir")
           three_lines eq_refl).
Defined.

(** ** [count_words] *)

Lemma join_singletons (g : char -> str) (h : char -> char) (l : str) :
  (forall x, g x = [h x]) -> Str.join NOTHING (map g l) = map h l.
Proof.
  intros G. induction l as [|a l IH]; [reflexivity|].
  cbn [map] in *. destruct l as [|b l].
  - simpl. rewrite G. reflexivity.
  - cbn [Str.join map] in *. rewrite G.
    change (Str.join NOTHING (g b :: map g l)) with
      (match map g l with [] => g b | _ :: _ => g b ++ NOTHING ++ Str.join NOTHING (map g l) end) in IH.
    cbn [NOTHING app]. f_equal.
    destruct (map g l) eqn:E; exact IH.
Qed.

Lemma count_words_step_tokens (ua : char -> bool) (para : str) :
  count_words_step ua para = length (tokens ua para).
Proof.
  unfold count_words_step, tokens. f_equal. f_equal.
  change (Str.replace para NEWLINE SPACE)
    with (Str.replace_from [Str.LF] [SP] 0 para).
  rewrite replace_char.
  rewrite (join_singletons _ (fun ch => if Str.isalnum_char ua ch then ch else SP)).
  - rewrite map_map. apply map_ext. intros ch.
    destruct (Str.eqc ch Str.LF) eqn:E; [reflexivity|].
    cbn [orb]. destruct (Str.isalnum_char ua ch); reflexivity.
  - intros ch. cbn [Str.isalnum forallb]. rewrite andb_true_r.
    destruct (Str.isalnum_char ua ch); reflexivity.
Qed.

Lemma count_words_eq (ua : char -> bool) (contents : str) :
  count_words ua contents =
  match map (fun p => length (tokens ua p)) (get_paragraphs contents false) with
  | [] => Ok 0
  | n :: l => Str.min (n :: l)
  end.
Proof.
  unfold count_words. rewrite fold_left_collect. cbn [app].
  rewrite (map_ext _ _ (count_words_step_tokens ua)).
  destruct (map (fun p => length (tokens ua p)) (get_paragraphs contents false));
    reflexivity.
Qed.

Lemma fold_min_least (l : list nat) (n : nat) :
  In (fold_left Nat.min l n) (n :: l)
  /\ Forall (fun m => fold_left Nat.min l n <= m) (n :: l).
Proof.
  revert n. induction l as [|a l IH]; intros n.
  - simpl. split; [left; reflexivity | constructor; [lia | constructor]].
  - cbn [fold_left]. destruct (IH (Nat.min n a)) as [I F].
    inversion F as [|x y F1 F2]; subst. split.
    + destruct I as [I | I].
      * rewrite <- I. destruct (Nat.min_dec n a) as [E | E]; rewrite E.
        -- left; reflexivity.
        -- right; left; reflexivity.
      * right; right; exact I.
    + constructor; [lia|]. constructor; [lia | exact F2].
Qed.

Lemma count_words_least (ua : char -> bool) (contents : str) :
  exists n,
    count_words ua contents = Ok n
    /\ least_or_zero n
         (map (fun p => length (tokens ua p)) (get_paragraphs contents false)).
Proof.
  rewrite count_words_eq.
  destruct (map (fun p => length (tokens ua p)) (get_paragraphs contents false))
    as [|n l].
  - exists 0. split; reflexivity.
  - exists (fold_left Nat.min l n). split; [reflexivity|].
    apply fold_min_least.
Qed.

(** C3: [count_words] returns the least token count among the paragraphs
    that survive the classifier, and 0 when none survives; the two
    paragraphs of the example have 2 and 4 tokens, and the answer there is
    2 and not the total 6. *)
Theorem count_words_is_least_token_count (ua : char -> bool) (contents : str) :
  (exists n,
     count_words ua contents = Ok n
     /\ least_or_zero n
          (map (fun p => length (tokens ua p)) (get_paragraphs contents false)))
  /\ map (fun p => length (tokens ua p)) (get_paragraphs hello_world false) = [2; 4]
  /\ count_words ua hello_world = Ok 2.
Proof.
  split; [apply count_words_least | split; vm_compute; reflexivity].
Qed.

(** C4: the wrapped example has exactly 2 paragraphs; the line feeds inside
    its first paragraph have become spaces, and the loop of [count_words]
    counts that paragraph as one run of six words. *)
Theorem wrapped_paragraph_is_one_run (ua : char -> bool) :
  count_paragraphs wrapped = 2
  /\ get_paragraphs wrapped false
     = [lit "This is one paragraph that wraps." ++ LFLF; lit "Second one."]
  /\ tokens ua (lit "This is one paragraph that wraps." ++ LFLF)
     = [lit "This"; lit "is"; lit "one"; lit "paragraph"; lit "that"; lit "wraps"]
  /\ map (count_words_step ua) (get_paragraphs wrapped false) = [6; 2]
  /\ count_words ua wrapped = Ok 2.
Proof. repeat split; vm_compute; reflexivity. Qed.

(** ** Totality *)

(** C8: every counting function returns a number on every input: no
    exception is raised, [min] of an empty list is never asked for, and
    the matcher needs no bound on its steps.  Empty contents give no
    candidate, no paragraph and no word. *)
Theorem counting_functions_total (ua : char -> bool) (fs : FileSystem)
  (given_file containing_directory contents fragment : str) :
  is_file fs (containing_directory ++ FILE_SEPARATOR ++ given_file) = false ->
  (exists n, count_words ua contents = Ok n)
  /\ (exists n, count_lines fs given_file containing_directory contents = Ok n)
  /\ (exists n, count_paragraphs contents = n)
  /\ (exists n, count_specified_fragment contents fragment = n)
  /\ (forall b, Re.findall PARAGRAH_RE (newline_pass (space_pass [] b)) = [])
  /\ (forall b, get_paragraphs [] b = [])
  /\ count_paragraphs [] = 0
  /\ count_words ua [] = Ok 0.
Proof.
  intros F. repeat split.
  - destruct (count_words_least ua contents) as [n [H _]].
    exists n. exact H.
  - eexists. apply count_lines_literal. exact F.
  - eexists. reflexivity.
  - eexists. reflexivity.
  - intros []; reflexivity.
  - intros []; reflexivity.
Qed.

Lemma counting_functions_total_witness :
  is_file no_files (lit "dir" ++ FILE_SEPARATOR ++ lit "f.md") = false
  /\ (exists n, count_words ascii_only (lit "  " ++ [Str.LF]) = Ok n)
  /\ count_paragraphs [] = 0.
Proof.
  pose proof (counting_functions_total ascii_only no_files (lit "f.md") (lit "dir")
                (lit "  " ++ [Str.LF]) (lit "a") eq_refl) as T.
  split; [reflexivity|].
  split; [exact (proj1 T) | exact (proj1 (proj2 (proj2 (proj2 (proj2 (proj2 (proj2 T)))))))].
Defined.

(** ** The sentinel of [get_paragraphs] *)

(** X23: on every text handed to lines 49 to 51 of [get_paragraphs] - the
    contents, after the removal of spaces when [blank_replace] is set - in
    which the sentinel GATORGRADER_REPLACEMENT does not occur, the three
    replacements give the text with every double line feed kept and every
    line feed left over replaced by a space, and change nothing else. *)
Theorem newline_pass_without_sentinel (c : str) :
  contains c GATORGRADER_REPLACEMENT = false ->
  newline_pass c = keep_double_newlines c.
Proof. apply (newline_pass_bounded (length c)). apply le_n. Qed.

Lemma newline_pass_without_sentinel_witness :
  contains wrapped GATORGRADER_REPLACEMENT = false
  /\ newline_pass wrapped = keep_double_newlines wrapped.
Proof.
  split; [reflexivity | apply newline_pass_without_sentinel; reflexivity].
Defined.

(** C1: nothing keeps the sentinel out of the contents, and the code
    breaks on contents that hold it.  On [see GATORGRADER_REPLACEMENT],
    which has no line feed, lines 49 to 51 do not return the text
    unchanged: the last replacement turns the text's own copy of the
    sentinel into a double line feed, the one paragraph found is [see]
    with a double line feed, and [count_words] answers 1 for two words;
    [one GATORGRADER_REPLACEMENT two] is counted as 2 paragraphs.  With
    spaces removed first, [GATORGRADER_ REPLACEMENT], which does not hold
    the sentinel, becomes it and is counted as no paragraph. *)
Theorem sentinel_in_contents_is_rewritten :
  contains (lit "see GATORGRADER_REPLACEMENT") GATORGRADER_REPLACEMENT = true
  /\ keep_double_newlines (lit "see GATORGRADER_REPLACEMENT")
     = lit "see GATORGRADER_REPLACEMENT"
  /\ newline_pass (lit "see GATORGRADER_REPLACEMENT") = lit "see " ++ LFLF
  /\ newline_pass (lit "see GATORGRADER_REPLACEMENT")
     <> keep_double_newlines (lit "see GATORGRADER_REPLACEMENT")
  /\ get_paragraphs (lit "see GATORGRADER_REPLACEMENT") false = [lit "see " ++ LFLF]
  /\ count_words ascii_only (lit "see GATORGRADER_REPLACEMENT") = Ok 1
  /\ count_paragraphs (lit "one GATORGRADER_REPLACEMENT two") = 2
  /\ contains (lit "GATORGRADER_ REPLACEMENT") GATORGRADER_REPLACEMENT = false
  /\ newline_pass (space_pass (lit "GATORGRADER_ REPLACEMENT") true) = LFLF
  /\ count_paragraphs (lit "GATORGRADER_ REPLACEMENT") = 0.
Proof. repeat split; try reflexivity. vm_compute. discriminate. Qed.

(** ** Choosing between the file and the contents *)

Lemma count_lines_both (fs : FileSystem) (given_file containing_directory contents : str) :
  is_file fs (containing_directory ++ FILE_SEPARATOR ++ given_file) = true ->
  contents <> NOTHING ->
  count_lines fs given_file containing_directory contents = Ok 0.
Proof.
  intros F C. unfold count_lines. rewrite F.
  destruct contents; [destruct (C eq_refl) | reflexivity].
Qed.

Lemma count_fragments_both (fs : FileSystem) (chosen_fragment : str)
  (checking_function : str -> str -> py nat)
  (given_file containing_directory contents : str) :
  is_file fs (containing_directory ++ FILE_SEPARATOR ++ given_file) = true ->
  contents <> NOTHING ->
  count_fragments fs chosen_fragment checking_function
    given_file containing_directory contents = Ok 0.
Proof.
  intros F C. unfold count_fragments. rewrite F.
  destruct contents; [destruct (C eq_refl) | reflexivity].
Qed.

(** C2, as the code has it: when the file exists and contents that are
    not empty are supplied as well, [count_lines] and [count_fragments]
    take neither branch: each returns 0, whatever the text of the file, the
    contents and the checking function are. *)
Theorem both_sources_count_zero (fs : FileSystem) (chosen_fragment : str)
  (checking_function : str -> str -> py nat)
  (given_file containing_directory contents : str) :
  is_file fs (containing_directory ++ FILE_SEPARATOR ++ given_file) = true ->
  contents <> NOTHING ->
  count_lines fs given_file containing_directory contents = Ok 0
  /\ count_fragments fs chosen_fragment checking_function
       given_file containing_directory contents = Ok 0.
Proof.
  intros F C. split; [apply count_lines_both | apply count_fragments_both]; assumption.
Qed.

Lemma both_sources_count_zero_witness :
  is_file dir_file (lit "dir" ++ FILE_SEPARATOR ++ lit "f.md") = true
  /\ lit "b" <> NOTHING
  /\ count_lines dir_file (lit "f.md") (lit "dir") (lit "b") = Ok 0
  /\ count_fragments dir_file (lit "a") checking (lit "f.md") (lit "dir") (lit "b")
     = Ok 0.
Proof.
  split; [reflexivity|]. split; [discriminate|].
  apply (both_sources_count_zero dir_file); [reflexivity | discriminate].
Defined.

(** C2 fails as stated: with the file [dir/f.md] holding [aa] and the
    contents [b] supplied too, the counts computed from the text of the
    file are 1 line and 2 fragments [a], and both functions return 0. *)
Lemma both_sources_file_not_favored :
  is_file dir_file (lit "dir" ++ FILE_SEPARATOR ++ lit "f.md") = true
  /\ lit "b" <> NOTHING
  /\ (text <- read_text dir_file (lit "dir" ++ FILE_SEPARATOR ++ lit "f.md") ;;
      line_list <- get_line_list text ;;
      Ok (length line_list)) = Ok 1
  /\ (text <- read_text dir_file (lit "dir" ++ FILE_SEPARATOR ++ lit "f.md") ;;
      checking text (lit "a")) = Ok 2
  /\ count_lines dir_file (lit "f.md") (lit "dir") (lit "b") <> Ok 1
  /\ count_fragments dir_file (lit "a") checking (lit "f.md") (lit "dir") (lit "b")
     <> Ok 2.
Proof. repeat split; try reflexivity; vm_compute; discriminate. Qed.

(** C10: [count_lines] and [count_fragments] return 0 and raise nothing
    whenever neither branch applies: no file and the empty contents, or a
    file together with contents that are not empty.  Neither the file nor
    the checking function is used, so a missing file with no contents
    counts as 0. *)
Theorem neither_branch_counts_zero (fs : FileSystem) (chosen_fragment : str)
  (checking_function : str -> str -> py nat)
  (given_file containing_directory contents : str) :
  (is_file fs (containing_directory ++ FILE_SEPARATOR ++ given_file) = false
   /\ contents = NOTHING)
  \/ (is_file fs (containing_directory ++ FILE_SEPARATOR ++ given_file) = true
      /\ contents <> NOTHING) ->
  count_lines fs given_file containing_directory contents = Ok 0
  /\ count_fragments fs chosen_fragment checking_function
       given_file containing_directory contents = Ok 0.
Proof.
  intros [[F ->] | [F C]].
  - unfold count_lines, count_fragments. rewrite F. split; reflexivity.
  - split; [apply count_lines_both | apply count_fragments_both]; assumption.
Qed.

Lemma neither_branch_counts_zero_witness :
  (is_file no_files (lit "dir" ++ FILE_SEPARATOR ++ lit "missing.md") = false
   /\ NOTHING = NOTHING)
  /\ count_lines no_files (lit "missing.md") (lit "dir") NOTHING = Ok 0
  /\ count_fragments no_files (lit "a") (fun _ _ => Raise ValueError)
       (lit "missing.md") (lit "dir") NOTHING = Ok 0.
Proof.
  split; [split; reflexivity|].
  apply (neither_branch_counts_zero no_files (lit "a") (fun _ _ => Raise ValueError)
           (lit "missing.md") (lit "dir") NOTHING).
  left. split; reflexivity.
Defined.

(** ** [PARAGRAH_RE] on a text without line feeds *)

Lemma lazy_then_double_fails (s : str) :
  no_lf s ->
  Re.any_plus_lazy (Re.exec (Re.Lit [Str.LF; Str.LF]) Some) s = None.
Proof.
  induction 1 as [|c t C T IH]; [reflexivity|].
  cbn [Re.any_plus_lazy]. rewrite C, IH.
  cbn [Re.exec]. destruct T as [|d t' D T']; [reflexivity|].
  cbn [Str.startswith]. rewrite D. reflexivity.
Qed.

Lemma lazy_then_dollar_all (s : str) :
  no_lf s -> s <> [] ->
  Re.any_plus_lazy (Re.exec Re.Dollar Some) s = Some [].
Proof.
  induction 1 as [|c t C T IH]; [congruence|]. intros _.
  cbn [Re.any_plus_lazy]. rewrite C.
  destruct T as [|d t' D T']; [reflexivity|].
  assert (A : Re.exec Re.Dollar Some (d :: t') = None).
  { cbn [Re.exec Re.at_dollar]. destruct t'; [rewrite D|]; reflexivity. }
  rewrite A. apply IH. discriminate.
Qed.

Lemma match_here_whole (s : str) :
  no_lf s -> s <> [] -> Re.match_here PARAGRAH_RE s = Some s.
Proof.
  intros L N. unfold Re.match_here.
  change (Re.exec PARAGRAH_RE Some s)
    with (match Re.any_plus_lazy (Re.exec (Re.Lit [Str.LF; Str.LF]) Some) s with
          | Some r => Some r
          | None => Re.any_plus_lazy (Re.exec Re.Dollar Some) s
          end).
  rewrite (lazy_then_double_fails s L), (lazy_then_dollar_all s L N).
  cbn [length]. rewrite Nat.sub_0_r, firstn_all. reflexivity.
Qed.

Lemma findall_from_skip (r : Re.regex) (p x : str) :
  Re.findall_from r (length p) (p ++ x) = Re.findall_from r 0 x.
Proof. induction p as [|a p IH]; [reflexivity | exact IH]. Qed.

Lemma findall_whole (s : str) :
  no_lf s -> s <> [] -> Re.findall PARAGRAH_RE s = [s].
Proof.
  intros L N. unfold Re.findall. destruct s as [|c t]; [congruence|].
  cbn [Re.findall_from]. rewrite (match_here_whole (c :: t) L N).
  f_equal. replace (length (c :: t) - 1) with (length t) by (simpl; lia).
  rewrite <- (app_nil_r t) at 2. rewrite findall_from_skip. reflexivity.
Qed.

(** ** Line feeds turned into spaces *)

Lemma lf_to_space_not_lf (x : char) : Str.eqc (lf_to_space x) Str.LF = false.
Proof.
  unfold lf_to_space. destruct (Str.eqc x Str.LF) eqn:E; [reflexivity | exact E].
Qed.

Lemma no_lf_map (s : str) : no_lf (map lf_to_space s).
Proof.
  induction s as [|a s IH]; constructor; [apply lf_to_space_not_lf | exact IH].
Qed.

Lemma isspace_lf_to_space (x : char) :
  Str.isspace_char (lf_to_space x) = Str.isspace_char x.
Proof.
  unfold lf_to_space. destruct (Str.eqc x Str.LF) eqn:E; [|reflexivity].
  apply eqc_eq in E. subst x. reflexivity.
Qed.

Lemma lstrip_map (s : str) :
  Str.lstrip (map lf_to_space s) = map lf_to_space (Str.lstrip s).
Proof.
  induction s as [|a s IH]; [reflexivity|].
  cbn [map Str.lstrip]. rewrite isspace_lf_to_space.
  destruct (Str.isspace_char a); [exact IH | reflexivity].
Qed.

Lemma strip_map (s : str) :
  Str.strip (map lf_to_space s) = map lf_to_space (Str.strip s).
Proof.
  unfold Str.strip, Str.rstrip.
  rewrite lstrip_map, <- map_rev, lstrip_map, map_rev. reflexivity.
Qed.

Lemma startswith_map (p s : str) :
  Forall (fun x => x <> Str.LF /\ x <> SP) p ->
  Str.startswith (map lf_to_space s) p = Str.startswith s p.
Proof.
  intros F. revert s. induction F as [|x p [X1 X2] F IH]; intros s; [reflexivity|].
  destruct s as [|c s]; [reflexivity|].
  cbn [map Str.startswith]. rewrite IH. f_equal.
  unfold lf_to_space. destruct (Str.eqc c Str.LF) eqn:E; [|reflexivity].
  apply eqc_eq in E. subst c.
  destruct (Str.eqc SP x) eqn:E1; [apply eqc_eq in E1; congruence|].
  destruct (Str.eqc Str.LF x) eqn:E2; [apply eqc_eq in E2; congruence|].
  reflexivity.
Qed.

Lemma is_paragraph_map (s : str) :
  is_paragraph (map lf_to_space s) = is_paragraph s.
Proof.
  unfold is_paragraph. rewrite strip_map, !startswith_map; [reflexivity | |];
    repeat constructor; discriminate.
Qed.

Lemma keep_double_newlines_none (s : str) :
  contains s DOUBLE_NEWLINE = false -> keep_double_newlines s = map lf_to_space s.
Proof.
  induction s as [|a t IH]; [reflexivity|]. intros H.
  destruct (contains_cons _ _ _ H) as [H0 Ht].
  rewrite (keep_double_newlines_other _ _ H0), (IH Ht). reflexivity.
Qed.

Lemma map_lf_to_space_id (s : str) :
  contains s NEWLINE = false -> map lf_to_space s = s.
Proof.
  induction s as [|a t IH]; [reflexivity|]. intros H.
  destruct (contains_cons _ _ _ H) as [H0 Ht].
  cbn [map]. rewrite (IH Ht). f_equal.
  cbn [Str.startswith NEWLINE] in H0. rewrite andb_true_r in H0.
  unfold lf_to_space. rewrite H0. reflexivity.
Qed.



(** The other ways the claim as stated fails: empty contents and contents
    that are the sentinel have no double line feed and no marker, and give
    no candidate at all; with spaces removed, the one candidate has lost
    the spaces of the contents. *)
Example no_candidate_without_text :
  get_paragraphs [] false = []
  /\ get_paragraphs GATORGRADER_REPLACEMENT false = []
  /\ get_paragraphs (lit "a b") true = [lit "ab"].
Proof. repeat split. Qed.


(** ** [str.count]: the most occurrences that do not overlap *)

Lemma occurs_at_0 (sub s : str) :
  occurs_at sub s 0 <-> Str.startswith s sub = true.
Proof.
  rewrite startswith_iff. split.
  - intros [a [b [E L]]]. destruct a; [|discriminate]. exists b. exact E.
  - intros [r E]. exists [], r. split; [exact E | reflexivity].
Qed.

Lemma occurs_at_S (sub : str) (c : char) (t : str) (i : nat) :
  occurs_at sub (c :: t) (S i) <-> occurs_at sub t i.
Proof.
  split.
  - intros [a [b [E L]]]. destruct a as [|x a]; [discriminate|].
    injection E as _ E. injection L as L. exists a, b. split; assumption.
  - intros [a [b [E L]]]. exists (c :: a), b. split; [rewrite E; reflexivity|].
    simpl. rewrite L. reflexivity.
Qed.

Lemma occurs_at_nil (sub : str) (i : nat) : occurs_at sub [] i -> sub = [].
Proof.
  intros [a [b [E _]]]. symmetry in E.
  apply app_eq_nil in E. destruct E as [_ E].
  apply app_eq_nil in E. destruct E as [E _]. exact E.
Qed.

Lemma occurs_at_bound (sub s : str) (i : nat) :
  occurs_at sub s i -> i + length sub <= length s.
Proof.
  intros [a [b [E L]]]. subst s i. rewrite !length_app. lia.
Qed.

Lemma occurs_at_empty (s : str) (i : nat) : i <= length s -> occurs_at [] s i.
Proof.
  intros L. exists (firstn i s), (skipn i s). split.
  - symmetry. apply firstn_skipn.
  - apply firstn_length_le. exact L.
Qed.

Lemma disjoint_weaken (sub s : str) (lo lo' : nat) (l : list nat) :
  lo' <= lo -> disjoint_from sub s lo l -> disjoint_from sub s lo' l.
Proof.
  intros L. destruct l as [|i l]; [trivial|].
  cbn [disjoint_from]. intros [H1 H2]. split; [lia | exact H2].
Qed.

Lemma disjoint_shift_down (sub : str) (c : char) (t : str) (l : list nat) (lo : nat) :
  disjoint_from sub (c :: t) (S lo) l -> disjoint_from sub t lo (map pred l).
Proof.
  revert lo. induction l as [|i l IH]; intros lo; [trivial|].
  cbn [disjoint_from map]. intros [H1 [H2 H3]].
  destruct i as [|i]; [lia|]. cbn [pred].
  split; [lia|]. split; [apply (occurs_at_S sub c t i); exact H2|].
  apply IH.
  replace (S (Nat.max (i + length sub) (S i)))
    with (Nat.max (S i + length sub) (S (S i))) by lia.
  exact H3.
Qed.

Lemma disjoint_shift_up (sub : str) (c : char) (t : str) (l : list nat) (lo : nat) :
  disjoint_from sub t lo l -> disjoint_from sub (c :: t) (S lo) (map S l).
Proof.
  revert lo. induction l as [|i l IH]; intros lo; [trivial|].
  cbn [disjoint_from map]. intros [H1 [H2 H3]].
  split; [lia|]. split; [apply (occurs_at_S sub c t i); exact H2|].
  replace (Nat.max (S i + length sub) (S (S i)))
    with (S (Nat.max (i + length sub) (S i))) by lia.
  apply IH. exact H3.
Qed.

Lemma count_from_upper (sub s : str) (k : nat) (l : list nat) :
  sub <> [] ->
  disjoint_from sub s k l -> length l <= Str.count_from sub k s.
Proof.
  intros N. revert k l. induction s as [|c t IH]; intros k l D.
  - destruct l as [|i l]; [apply le_n|].
    destruct D as [_ [O _]]. destruct (N (occurs_at_nil _ _ O)).
  - destruct k as [|k].
    + cbn [Str.count_from].
      destruct l as [|i l]; [apply Nat.le_0_l|].
      destruct (Str.startswith (c :: t) sub) eqn:P.
      * destruct D as [_ [_ D]]. cbn [length]. apply le_n_S.
        rewrite <- (length_map pred). apply IH, disjoint_shift_down with (c := c).
        apply (disjoint_weaken sub (c :: t)
                 (Nat.max (i + length sub) (S i)) (S (length sub - 1)));
          [lia | exact D].
      * rewrite <- (length_map pred). apply IH, disjoint_shift_down with (c := c).
        destruct i as [|i].
        -- destruct D as [_ [O _]]. apply occurs_at_0 in O. congruence.
        -- destruct D as [_ D]. split; [lia | exact D].
    + cbn [Str.count_from]. rewrite <- (length_map pred).
      apply IH, disjoint_shift_down with (c := c). exact D.
Qed.

Lemma count_from_lower (sub s : str) (k : nat) :
  sub <> [] ->
  exists l, disjoint_from sub s k l /\ length l = Str.count_from sub k s.
Proof.
  intros N. revert k. induction s as [|c t IH]; intros k.
  - exists []. split; [exact I | reflexivity].
  - destruct k as [|k].
    + cbn [Str.count_from].
      destruct (Str.startswith (c :: t) sub) eqn:P.
      * destruct (IH (length sub - 1)) as [l [D L]].
        exists (0 :: map S l). split; [|cbn [length]; rewrite length_map, L; reflexivity].
        split; [apply le_n|]. split; [apply occurs_at_0; exact P|].
        replace (Nat.max (0 + length sub) 1) with (S (length sub - 1))
          by (destruct sub; [congruence | simpl; lia]).
        apply disjoint_shift_up. exact D.
      * destruct (IH 0) as [l [D L]].
        exists (map S l). split; [|rewrite length_map; exact L].
        apply (disjoint_weaken sub (c :: t) 1 0); [lia|].
        apply disjoint_shift_up. exact D.
    + cbn [Str.count_from]. destruct (IH k) as [l [D L]].
      exists (map S l). split; [|rewrite length_map; exact L].
      apply disjoint_shift_up. exact D.
Qed.

Lemma count_empty_upper (s : str) (lo : nat) (l : list nat) :
  disjoint_from [] s lo l -> length l <= S (length s) - lo.
Proof.
  revert lo. induction l as [|i l IH]; intros lo; [intros _; apply Nat.le_0_l|].
  cbn [disjoint_from]. intros [H1 [H2 H3]].
  apply occurs_at_bound in H2. apply IH in H3.
  replace (Nat.max (i + length (@nil char)) (S i)) with (S i) in H3 by (simpl; lia).
  change (length (i :: l)) with (S (length l)).
  change (length (@nil char)) with 0 in H2. lia.
Qed.

Lemma count_empty_lower (s : str) (n lo : nat) :
  lo + n <= S (length s) -> disjoint_from [] s lo (seq lo n).
Proof.
  revert lo. induction n as [|n IH]; intros lo L; [exact I|].
  cbn [seq disjoint_from]. split; [apply le_n|].
  split; [apply occurs_at_empty; lia|].
  replace (Nat.max (lo + length (@nil char)) (S lo)) with (S lo) by (simpl; lia).
  apply IH. lia.
Qed.

(** C9: [count_specified_fragment] returns the number of occurrences of the
    fragment in the contents that do not overlap: there is a family of that
    many such occurrences and none that is larger.  The fragment [aa] is
    counted once in [aaa] and twice in [aaaa]. *)
Theorem count_specified_fragment_non_overlapping (contents fragment : str) :
  (exists l, non_overlapping fragment contents l
             /\ length l = count_specified_fragment contents fragment)
  /\ (forall l, non_overlapping fragment contents l ->
                length l <= count_specified_fragment contents fragment)
  /\ count_specified_fragment (lit "aaa") (lit "aa") = 1
  /\ count_specified_fragment (lit "aaaa") (lit "aa") = 2.
Proof.
  unfold non_overlapping, count_specified_fragment.
  split; [|split; [|split; reflexivity]].
  - destruct fragment as [|f fragment].
    + exists (seq 0 (S (length contents))). split.
      * apply count_empty_lower. lia.
      * apply length_seq.
    + apply count_from_lower. discriminate.
  - intros l D. destruct fragment as [|f fragment].
    + apply count_empty_upper in D. cbn [Str.count]. lia.
    + apply count_from_upper; [discriminate | exact D].
Qed.

(** ** What [PARAGRAH_RE] matches, on every text *)

Lemma take_run_app (s : str) : fst (take_run s) ++ snd (take_run s) = s.
Proof.
  induction s as [|c t IH]; [reflexivity|].
  cbn [take_run]. destruct (Str.eqc c Str.LF); [reflexivity|].
  destruct (take_run t) as [run rest]. cbn [fst snd] in *.
  cbn [app]. rewrite IH. reflexivity.
Qed.

Lemma take_run_no_lf (s : str) : no_lf (fst (take_run s)).
Proof.
  induction s as [|c t IH]; [constructor|].
  cbn [take_run]. destruct (Str.eqc c Str.LF) eqn:E; [constructor|].
  destruct (take_run t) as [run rest]. cbn [fst] in *.
  constructor; assumption.
Qed.

Lemma take_run_rest (s : str) :
  snd (take_run s) = [] \/ exists t, snd (take_run s) = Str.LF :: t.
Proof.
  induction s as [|c t IH]; [left; reflexivity|].
  cbn [take_run]. destruct (Str.eqc c Str.LF) eqn:E.
  - right. apply eqc_eq in E. subst c. exists t. reflexivity.
  - destruct (take_run t) as [run rest]. exact IH.
Qed.

Lemma take_run_nil (s : str) : fst (take_run s) = [] -> snd (take_run s) = s.
Proof.
  intros H. rewrite <- (take_run_app s) at 2. rewrite H. reflexivity.
Qed.

(** The first alternative, [.+?\n\n]: the run must be followed by a double
    line feed. *)
Lemma lazy_then_double (s : str) :
  Re.any_plus_lazy (Re.exec (Re.Lit [Str.LF; Str.LF]) Some) s =
  match fst (take_run s) with
  | [] => None
  | _ :: _ =>
      if Str.startswith (snd (take_run s)) [Str.LF; Str.LF]
      then Some (skipn 2 (snd (take_run s)))
      else None
  end.
Proof.
  induction s as [|c t IH]; [reflexivity|].
  cbn [Re.any_plus_lazy take_run].
  destruct (Str.eqc c Str.LF) eqn:E; [reflexivity|].
  rewrite IH. clear IH.
  change (Re.exec (Re.Lit [Str.LF; Str.LF]) Some t)
    with (if Str.startswith t [Str.LF; Str.LF] then Some (skipn 2 t) else None).
  destruct (Str.startswith t [Str.LF; Str.LF]) eqn:D.
  - destruct (startswith_double_inv t D) as [t' ->]. reflexivity.
  - pose proof (take_run_nil t) as Z.
    destruct (take_run t) as [run rest]. cbn [fst snd] in *.
    destruct run as [|x run]; [|reflexivity].
    rewrite (Z eq_refl), D. reflexivity.
Qed.

(** The second alternative, [.+?$]: the run must end the text, or be
    followed by the one line feed that ends it. *)
Lemma lazy_then_dollar (s : str) :
  Re.any_plus_lazy (Re.exec Re.Dollar Some) s =
  match fst (take_run s) with
  | [] => None
  | _ :: _ =>
      if Re.at_dollar (snd (take_run s)) then Some (snd (take_run s)) else None
  end.
Proof.
  induction s as [|c t IH]; [reflexivity|].
  cbn [Re.any_plus_lazy take_run].
  destruct (Str.eqc c Str.LF) eqn:E; [reflexivity|].
  rewrite IH. clear IH.
  change (Re.exec Re.Dollar Some t)
    with (if Re.at_dollar t then Some t else None).
  pose proof (take_run_nil t) as Z.
  destruct (Re.at_dollar t) eqn:D.
  - destruct t as [|d [|e t']]; [reflexivity | | discriminate].
    cbn [Re.at_dollar] in D. cbn [take_run]. rewrite D. cbn. rewrite D. reflexivity.
  - destruct (take_run t) as [run rest]. cbn [fst snd] in *.
    destruct run as [|x run]; [|reflexivity].
    rewrite (Z eq_refl), D. reflexivity.
Qed.

Lemma firstn_prefix {A : Type} (a b : list A) : firstn (length a) (a ++ b) = a.
Proof. induction a as [|x a IH]; [reflexivity | simpl; rewrite IH; reflexivity]. Qed.

Lemma firstn_run (run rest left : str) :
  rest = LFLF ++ left ->
  firstn (length (run ++ rest) - length left) (run ++ rest) = run ++ LFLF.
Proof.
  intros ->. rewrite !length_app.
  replace (length run + (length LFLF + length left) - length left)
    with (length (run ++ LFLF)) by (rewrite length_app; lia).
  rewrite (app_assoc run LFLF left). apply firstn_prefix.
Qed.

Lemma firstn_run_only (run rest : str) :
  firstn (length (run ++ rest) - length rest) (run ++ rest) = run.
Proof.
  rewrite length_app, Nat.add_sub. apply firstn_prefix.
Qed.

Lemma match_here_candidate (s : str) :
  Re.match_here PARAGRAH_RE s = candidate_at s.
Proof.
  unfold Re.match_here, candidate_at.
  change (Re.exec PARAGRAH_RE Some s)
    with (match Re.any_plus_lazy (Re.exec (Re.Lit [Str.LF; Str.LF]) Some) s with
          | Some r => Some r
          | None => Re.any_plus_lazy (Re.exec Re.Dollar Some) s
          end).
  rewrite lazy_then_double, lazy_then_dollar.
  pose proof (take_run_app s) as A. pose proof (take_run_rest s) as R.
  destruct (take_run s) as [run rest]. cbn [fst snd] in *.
  destruct run as [|x run]; [reflexivity|].
  subst s. destruct R as [-> | [t ->]].
  - cbn [Str.startswith Re.at_dollar].
    rewrite firstn_run_only. reflexivity.
  - destruct t as [|d t].
    + cbn [Str.startswith Re.at_dollar]. rewrite andb_false_r, eqc_refl.
      rewrite firstn_run_only. reflexivity.
    + cbn [Str.startswith Re.at_dollar]. rewrite eqc_refl, andb_true_r. cbn [andb].
      destruct (Str.eqc d Str.LF) eqn:D; [|reflexivity].
      apply eqc_eq in D. subst d.
      cbn [skipn]. change (Str.LF :: Str.LF :: t) with (LFLF ++ t).
      rewrite (firstn_run (x :: run) _ t eq_refl). reflexivity.
Qed.

(** X1: at the start of any text, [PARAGRAH_RE] matches the run of
    characters up to the first line feed - when the run is not empty and is
    followed by a double line feed (then the match takes the double line
    feed too), by the end of the text, or by one line feed that ends the
    text - and matches nothing otherwise. *)
Theorem paragraph_re_matches_run (s : str) :
  Re.match_here PARAGRAH_RE s = candidate_at s
  /\ fst (take_run s) ++ snd (take_run s) = s
  /\ no_lf (fst (take_run s))
  /\ (snd (take_run s) = [] \/ exists t, snd (take_run s) = Str.LF :: t).
Proof.
  split; [apply match_here_candidate|].
  split; [apply take_run_app|].
  split; [apply take_run_no_lf | apply take_run_rest].
Qed.

Lemma candidate_at_shape (s m : str) :
  candidate_at s = Some m ->
  candidate_shape m /\ exists left, s = m ++ left.
Proof.
  unfold candidate_at, candidate_shape.
  pose proof (take_run_app s) as A. pose proof (take_run_no_lf s) as N.
  pose proof (take_run_rest s) as R.
  destruct (take_run s) as [run rest]. cbn [fst snd] in *.
  destruct run as [|x run]; [discriminate|].
  destruct rest as [|c [|d rest]].
  - intros H. injection H as <-. split.
    + exists (x :: run). split; [discriminate|]. split; [exact N | left; reflexivity].
    + exists []. symmetry. exact A.
  - intros H. injection H as <-. split.
    + exists (x :: run). split; [discriminate|]. split; [exact N | left; reflexivity].
    + exists [c]. symmetry. exact A.
  - destruct (Str.eqc d Str.LF) eqn:D; [|discriminate].
    intros H. injection H as <-. split.
    + exists (x :: run). split; [discriminate|]. split; [exact N | right; reflexivity].
    + exists rest. rewrite <- A.
      apply eqc_eq in D. subst d.
      destruct R as [R | [t R]]; [discriminate|].
      injection R as -> _.
      change (x :: run ++ LFLF) with ((x :: run) ++ LFLF).
      rewrite <- app_assoc. reflexivity.
Qed.

Lemma findall_from_shape (s : str) (k : nat) :
  Forall candidate_shape (Re.findall_from PARAGRAH_RE k s).
Proof.
  revert k. induction s as [|c t IH]; intros k.
  - cbn [Re.findall_from]. rewrite match_here_candidate.
    destruct k; constructor.
  - cbn [Re.findall_from]. destruct k as [|k]; [|apply IH].
    rewrite match_here_candidate.
    destruct (candidate_at (c :: t)) as [m|] eqn:M; [|apply IH].
    constructor; [apply (candidate_at_shape _ _ M) | apply IH].
Qed.

(** X2: every paragraph that [get_paragraphs] returns, on any contents and
    in either mode, passes [is_paragraph] and is a run of characters
    without line feeds that is not empty, with or without a double line
    feed after it: no paragraph is empty and none holds a line feed other
    than its two trailing ones. *)
Theorem get_paragraphs_shape (contents : str) (blank_replace : bool) :
  Forall (fun p => is_paragraph p = true /\ candidate_shape p)
         (get_paragraphs contents blank_replace).
Proof.
  rewrite get_paragraphs_eq. apply Forall_forall. intros p I.
  apply filter_In in I. destruct I as [I P]. split; [exact P|].
  pose proof (findall_from_shape
                (newline_pass (space_pass contents blank_replace)) 0) as F.
  rewrite Forall_forall in F. apply F. exact I.
Qed.

(** ** Line feeds after the newline pass *)

Lemma restore_paired (x : str) (k : nat) :
  no_lf x ->
  paired_lf (Str.replace_from GATORGRADER_REPLACEMENT DOUBLE_NEWLINE k x) = true.
Proof.
  intros N. revert k. induction N as [|c t C T IH]; intros k; [reflexivity|].
  cbn [Str.replace_from]. destruct k as [|k]; [|apply IH].
  destruct (Str.startswith (c :: t) GATORGRADER_REPLACEMENT).
  - change (DOUBLE_NEWLINE ++ ?r) with (Str.LF :: Str.LF :: r).
    cbn [paired_lf]. rewrite eqc_refl. cbn [andb]. apply IH.
  - cbn [paired_lf]. rewrite C. apply IH.
Qed.

(** X3: whatever the contents are, the sentinel among them or not, the
    text that lines 49 to 51 of [get_paragraphs] hand to the pattern has
    its line feeds in pairs: no single line feed is left in it. *)
Theorem newline_pass_pairs_line_feeds (contents : str) :
  paired_lf (newline_pass contents) = true.
Proof. rewrite newline_pass_eq. apply restore_paired, no_lf_map. Qed.

(** ** The candidates of a text whose line feeds come in pairs *)

Lemma findall_step (m left : str) :
  m <> [] ->
  Re.match_here PARAGRAH_RE (m ++ left) = Some m ->
  Re.findall PARAGRAH_RE (m ++ left) = m :: Re.findall PARAGRAH_RE left.
Proof.
  intros N H. unfold Re.findall. destruct m as [|a m]; [congruence|].
  change ((a :: m) ++ left) with (a :: (m ++ left)) in *.
  cbn [Re.findall_from]. rewrite H. f_equal.
  replace (length (a :: m) - 1) with (length m) by (simpl; lia).
  apply findall_from_skip.
Qed.

Lemma findall_skip_lf (t : str) :
  Re.findall PARAGRAH_RE (Str.LF :: t) = Re.findall PARAGRAH_RE t.
Proof. reflexivity. Qed.

Lemma paired_lf_run (run rest : str) :
  no_lf run -> paired_lf (run ++ rest) = paired_lf rest.
Proof.
  induction 1 as [|c t C T IH]; [reflexivity|].
  cbn [app paired_lf]. rewrite C. exact IH.
Qed.

Lemma without_lf_app (a b : str) : without_lf (a ++ b) = without_lf a ++ without_lf b.
Proof. apply filter_app. Qed.

Lemma findall_paired_bounded (n : nat) (s : str) :
  length s <= n ->
  paired_lf s = true ->
  without_lf (concat (Re.findall PARAGRAH_RE s)) = without_lf s.
Proof.
  revert s. induction n as [|n IH]; intros s L P.
  - destruct s; [reflexivity | simpl in L; lia].
  - destruct s as [|c t]; [reflexivity|].
    destruct (Str.eqc c Str.LF) eqn:C.
    + apply eqc_eq in C. subst c.
      destruct t as [|d t']; [discriminate|].
      cbn [paired_lf] in P. rewrite eqc_refl in P.
      apply andb_true_iff in P. destruct P as [D P].
      apply eqc_eq in D. subst d.
      rewrite !findall_skip_lf. rewrite IH; [reflexivity | simpl in L; lia | exact P].
    + pose proof (match_here_candidate (c :: t)) as M.
      unfold candidate_at in M.
      pose proof (take_run_app (c :: t)) as A.
      pose proof (take_run_no_lf (c :: t)) as N.
      pose proof (take_run_rest (c :: t)) as R.
      destruct (take_run (c :: t)) as [run rest] eqn:T. cbn [fst snd] in *.
      destruct run as [|x run].
      { cbn [app] in A. subst rest.
        destruct R as [R | [t1 R]]; [discriminate|].
        injection R as -> _. rewrite eqc_refl in C. discriminate. }
      rewrite <- A in P. rewrite (paired_lf_run _ _ N) in P.
      destruct R as [-> | [t1 ->]].
      * rewrite app_nil_r in A. rewrite <- A in *.
        rewrite (findall_whole _ N) by discriminate.
        cbn [concat]. rewrite app_nil_r. reflexivity.
      * destruct t1 as [|d t2]; [discriminate|].
        cbn [paired_lf] in P. rewrite eqc_refl in P.
        apply andb_true_iff in P. destruct P as [D P].
        rewrite D in M. apply eqc_eq in D. subst d.
        assert (E : c :: t = ((x :: run) ++ LFLF) ++ t2).
        { rewrite <- A, <- app_assoc. reflexivity. }
        rewrite E in M |- *.
        assert (Z : (x :: run) ++ LFLF <> []) by discriminate.
        rewrite (findall_step _ _ Z M).
        cbn [concat]. rewrite !without_lf_app. f_equal.
        apply IH; [|exact P].
        apply (f_equal (@length char)) in E. rewrite !length_app in E.
        simpl in E, L. lia.
Qed.

(** X4: the segmenter loses no text.  On any contents and in either mode,
    the candidates that the pattern finds in the text after the newline
    pass hold, in order and once each, every character of that text that
    is not a line feed. *)
Theorem candidates_cover_text (contents : str) (blank_replace : bool) :
  without_lf
    (concat (Re.findall PARAGRAH_RE
               (newline_pass (space_pass contents blank_replace))))
  = without_lf (newline_pass (space_pass contents blank_replace)).
Proof.
  apply (findall_paired_bounded
           (length (newline_pass (space_pass contents blank_replace))));
    [apply le_n|].
  rewrite newline_pass_eq. apply restore_paired, no_lf_map.
Qed.

(** ** Spaces and [count_paragraphs] *)

Lemma replace_char_nothing (a : char) (s : str) :
  Str.replace_from [a] [] 0 s = filter (fun c => negb (Str.eqc c a)) s.
Proof.
  induction s as [|c s IH]; [reflexivity|].
  cbn [Str.replace_from Str.startswith length Nat.sub filter].
  rewrite andb_true_r. destruct (Str.eqc c a); cbn [negb app]; rewrite IH; reflexivity.
Qed.

Lemma space_pass_true (contents : str) :
  space_pass contents true = without_spaces contents.
Proof. apply (replace_char_nothing SP). Qed.

Lemma without_spaces_twice (s : str) :
  without_spaces (without_spaces s) = without_spaces s.
Proof.
  unfold without_spaces. induction s as [|c s IH]; [reflexivity|].
  cbn [filter]. destruct (negb (Str.eqc c SP)) eqn:E; [|exact IH].
  cbn [filter]. rewrite E, IH. reflexivity.
Qed.

Lemma get_paragraphs_true (contents : str) :
  get_paragraphs contents true = get_paragraphs (without_spaces contents) false.
Proof. rewrite !get_paragraphs_eq, space_pass_true. reflexivity. Qed.

Lemma count_paragraphs_without_spaces (contents : str) :
  count_paragraphs contents = length (get_paragraphs (without_spaces contents) false).
Proof. unfold count_paragraphs. rewrite get_paragraphs_true. reflexivity. Qed.

(** X5: [count_paragraphs] does not see spaces.  It counts the paragraphs
    that [get_paragraphs] finds, with spaces kept, in the contents with
    every space taken out; so contents that differ only in spaces - a space
    put in or taken out anywhere - have the same count. *)
Theorem count_paragraphs_ignores_spaces (contents a b : str) :
  get_paragraphs contents true = get_paragraphs (without_spaces contents) false
  /\ count_paragraphs contents = count_paragraphs (without_spaces contents)
  /\ count_paragraphs (a ++ SPACE ++ b) = count_paragraphs (a ++ b).
Proof.
  split; [apply get_paragraphs_true|]. split.
  - rewrite !count_paragraphs_without_spaces, without_spaces_twice. reflexivity.
  - rewrite !count_paragraphs_without_spaces. unfold without_spaces.
    rewrite !filter_app. reflexivity.
Qed.

(** ** Whitespace and [is_paragraph] *)

Lemma lstrip_whitespace (w s : str) :
  all_whitespace w -> Str.lstrip (w ++ s) = Str.lstrip s.
Proof.
  induction 1 as [|c w C W IH]; [reflexivity|].
  cbn [app Str.lstrip]. rewrite C. exact IH.
Qed.

Lemma all_whitespace_rev (w : str) : all_whitespace w -> all_whitespace (rev w).
Proof. apply Forall_rev. Qed.

Lemma rstrip_whitespace (s w : str) :
  all_whitespace w -> Str.rstrip (s ++ w) = Str.rstrip s.
Proof.
  intros W. unfold Str.rstrip. rewrite rev_app_distr.
  rewrite (lstrip_whitespace _ _ (all_whitespace_rev _ W)). reflexivity.
Qed.

Lemma lstrip_app (s w : str) :
  all_whitespace w ->
  Str.lstrip (s ++ w) = match Str.lstrip s with [] => [] | _ => Str.lstrip s ++ w end.
Proof.
  intros W. induction s as [|c s IH].
  - cbn [app Str.lstrip]. rewrite <- (app_nil_r w).
    rewrite (lstrip_whitespace _ _ W). reflexivity.
  - cbn [app Str.lstrip]. destruct (Str.isspace_char c); [exact IH | reflexivity].
Qed.

Lemma strip_whitespace (w1 s w2 : str) :
  all_whitespace w1 -> all_whitespace w2 ->
  Str.strip (w1 ++ s ++ w2) = Str.strip s.
Proof.
  intros W1 W2. unfold Str.strip.
  rewrite (lstrip_whitespace _ _ W1), (lstrip_app _ _ W2).
  destruct (Str.lstrip s) as [|x l] eqn:E; [reflexivity|].
  apply rstrip_whitespace. exact W2.
Qed.

Lemma strip_all_whitespace (w : str) : all_whitespace w -> Str.strip w = [].
Proof.
  intros W. rewrite <- (app_nil_r w).
  change (w ++ []) with (w ++ [] ++ []).
  rewrite (strip_whitespace _ _ _ W (Forall_nil _)). reflexivity.
Qed.

(** X6: [is_paragraph] looks at the candidate without the whitespace
    around it: whitespace written before or after a candidate - such as the
    double line feed a candidate ends with - does not change the answer,
    and a candidate of whitespace only, the empty one included, is a
    paragraph. *)
Theorem is_paragraph_whitespace (w1 candidate w2 : str) :
  all_whitespace w1 -> all_whitespace w2 ->
  is_paragraph (w1 ++ candidate ++ w2) = is_paragraph candidate
  /\ is_paragraph (candidate ++ LFLF) = is_paragraph candidate
  /\ is_paragraph w1 = true.
Proof.
  intros W1 W2. unfold is_paragraph. split; [|split].
  - rewrite (strip_whitespace _ _ _ W1 W2). reflexivity.
  - change (candidate ++ LFLF) with ([] ++ candidate ++ LFLF).
    rewrite (strip_whitespace [] candidate LFLF (Forall_nil _)); [reflexivity|].
    repeat constructor.
  - rewrite (strip_all_whitespace _ W1). reflexivity.
Qed.

Lemma is_paragraph_whitespace_witness :
  (all_whitespace (lit "  ") /\ all_whitespace [Str.LF; 9%N])
  /\ is_paragraph (lit "  " ++ lit "# Title" ++ [Str.LF; 9%N]) = false.
Proof.
  assert (W1 : all_whitespace (lit "  ")) by (repeat constructor).
  assert (W2 : all_whitespace [Str.LF; 9%N]) by (repeat constructor).
  split; [split; assumption|].
  rewrite (proj1 (is_paragraph_whitespace _ (lit "# Title") _ W1 W2)). reflexivity.
Defined.

(** ** Contents of whitespace only *)

Lemma whitespace_no_sentinel (s : str) :
  all_whitespace s -> contains s GATORGRADER_REPLACEMENT = false.
Proof.
  induction 1 as [|c t C T IH]; [reflexivity|].
  cbn [contains]. rewrite IH, orb_false_r.
  cbn [GATORGRADER_REPLACEMENT lit Str.startswith].
  destruct (Str.eqc c (N_of_ascii "G")) eqn:E; [|reflexivity].
  apply eqc_eq in E. subst c. discriminate.
Qed.

Lemma all_whitespace_map (s : str) :
  all_whitespace s -> all_whitespace (map lf_to_space s).
Proof.
  induction 1 as [|c t C T IH]; constructor; [|exact IH].
  rewrite isspace_lf_to_space. exact C.
Qed.

Lemma all_whitespace_filter (f : char -> bool) (s : str) :
  all_whitespace s -> all_whitespace (filter f s).
Proof.
  induction 1 as [|c t C T IH]; [constructor|].
  cbn [filter]. destruct (f c); [constructor|]; assumption.
Qed.

Lemma is_paragraph_all_whitespace (s : str) :
  all_whitespace s -> is_paragraph s = true.
Proof.
  intros W. unfold is_paragraph. rewrite (strip_all_whitespace _ W). reflexivity.
Qed.

(** The one candidate of a text that is not empty and has neither a double
    line feed nor the sentinel. *)
Lemma one_candidate (s : str) :
  s <> [] ->
  contains s DOUBLE_NEWLINE = false ->
  contains s GATORGRADER_REPLACEMENT = false ->
  Re.findall PARAGRAH_RE (newline_pass s) = [map lf_to_space s].
Proof.
  intros N D G.
  rewrite (newline_pass_bounded (length s) s (le_n _) G).
  rewrite (keep_double_newlines_none s D).
  apply findall_whole; [apply no_lf_map|].
  destruct s; [congruence | discriminate].
Qed.

Lemma without_spaces_repeat (n : nat) : without_spaces (repeat SP n) = [].
Proof. induction n as [|n IH]; [reflexivity | exact IH]. Qed.

Lemma contains_repeat_space (n : nat) (sub : str) :
  Str.startswith (SP :: []) (firstn 1 sub) = false ->
  contains (repeat SP n) sub = false.
Proof.
  intros H. destruct sub as [|x sub]; [discriminate|].
  cbn [firstn Str.startswith] in H. rewrite andb_true_r in H.
  induction n as [|n IH]; [reflexivity|].
  cbn [repeat contains Str.startswith]. rewrite H, IH. reflexivity.
Qed.

(** X7: the replacement of spaces in [get_paragraphs] is what makes
    contents of spaces only count as no paragraph: for any number of
    spaces [count_paragraphs] is 0, while with spaces kept, as [count_words]
    asks, one space or more are one paragraph. *)
Theorem spaces_only_contents (n : nat) :
  count_paragraphs (repeat SP n) = 0
  /\ get_paragraphs (repeat SP n) true = []
  /\ get_paragraphs (repeat SP (S n)) false = [repeat SP (S n)].
Proof.
  assert (E : get_paragraphs (repeat SP n) true = []).
  { rewrite get_paragraphs_true, without_spaces_repeat. reflexivity. }
  split; [unfold count_paragraphs; rewrite E; reflexivity|].
  split; [exact E|].
  rewrite get_paragraphs_eq.
  change (space_pass (repeat SP (S n)) false) with (repeat SP (S n)).
  rewrite one_candidate;
    [| discriminate | apply contains_repeat_space; reflexivity
     | apply contains_repeat_space; reflexivity].
  rewrite map_lf_to_space_id by (apply contains_repeat_space; reflexivity).
  cbn [filter]. rewrite is_paragraph_all_whitespace; [reflexivity|].
  apply Forall_forall. intros x I. apply repeat_spec in I. subst x. reflexivity.
Qed.

(** X8: contents of whitespace only that are more than spaces - a tab, a
    single line feed - are counted as one paragraph: when, with the spaces
    taken out, the contents are not empty and have no double line feed,
    [count_paragraphs] is 1. *)
Theorem blank_contents_one_paragraph (contents : str) :
  all_whitespace contents ->
  without_spaces contents <> [] ->
  contains (without_spaces contents) DOUBLE_NEWLINE = false ->
  count_paragraphs contents = 1.
Proof.
  intros W N D. rewrite count_paragraphs_without_spaces, get_paragraphs_eq.
  change (space_pass (without_spaces contents) false) with (without_spaces contents).
  assert (W' : all_whitespace (without_spaces contents))
    by (apply all_whitespace_filter; exact W).
  rewrite (one_candidate _ N D (whitespace_no_sentinel _ W')).
  cbn [filter].
  rewrite (is_paragraph_all_whitespace _ (all_whitespace_map _ W')). reflexivity.
Qed.

Lemma blank_contents_one_paragraph_witness :
  (all_whitespace (lit " " ++ [Str.LF] ++ lit " ")
   /\ without_spaces (lit " " ++ [Str.LF] ++ lit " ") <> []
   /\ contains (without_spaces (lit " " ++ [Str.LF] ++ lit " ")) DOUBLE_NEWLINE = false)
  /\ count_paragraphs (lit " " ++ [Str.LF] ++ lit " ") = 1.
Proof.
  assert (W : all_whitespace (lit " " ++ [Str.LF] ++ lit " ")) by (repeat constructor).
  assert (N : without_spaces (lit " " ++ [Str.LF] ++ lit " ") <> []) by discriminate.
  split; [split; [exact W | split; [exact N | reflexivity]]|].
  exact (blank_contents_one_paragraph _ W N eq_refl).
Defined.

(** ** The words of a paragraph *)

Lemma paragraph_words_tokens (ua : char -> bool) (para : str) :
  paragraph_words ua para = tokens ua para.
Proof.
  unfold paragraph_words, tokens. f_equal.
  change (Str.replace para NEWLINE SPACE)
    with (Str.replace_from [Str.LF] [SP] 0 para).
  rewrite replace_char.
  rewrite (join_singletons _ (fun ch => if Str.isalnum_char ua ch then ch else SP)).
  - rewrite map_map. apply map_ext. intros ch.
    destruct (Str.eqc ch Str.LF) eqn:E; [reflexivity|].
    cbn [orb]. destruct (Str.isalnum_char ua ch); reflexivity.
  - intros ch. cbn [Str.isalnum forallb]. rewrite andb_true_r.
    destruct (Str.isalnum_char ua ch); reflexivity.
Qed.

Lemma concat_flush (cur : str) (rest : list str) :
  concat (Str.flush cur rest) = rev cur ++ concat rest.
Proof. destruct cur; reflexivity. Qed.

Lemma split_from_concat (s cur : str) :
  concat (Str.split_from cur s)
  = rev cur ++ filter (fun c => negb (Str.isspace_char c)) s.
Proof.
  revert cur. induction s as [|c t IH]; intros cur.
  - cbn [Str.split_from filter]. rewrite concat_flush. reflexivity.
  - cbn [Str.split_from filter]. destruct (Str.isspace_char c); cbn [negb].
    + rewrite concat_flush, IH. reflexivity.
    + rewrite IH. cbn [rev]. rewrite <- app_assoc. reflexivity.
Qed.

Lemma flush_words (P : str -> Prop) (cur : str) (rest : list str) :
  (cur <> [] -> P (rev cur)) -> Forall P rest -> Forall P (Str.flush cur rest).
Proof.
  intros H F. destruct cur as [|x cur]; [exact F|].
  constructor; [apply H; discriminate | exact F].
Qed.

Lemma split_from_words (s cur : str) :
  Forall (fun c => Str.isspace_char c = false) cur ->
  Forall (fun w => w <> [] /\ Forall (fun c => Str.isspace_char c = false) w)
         (Str.split_from cur s).
Proof.
  assert (R : forall cur : str,
             Forall (fun c => Str.isspace_char c = false) cur ->
             cur <> [] ->
             rev cur <> [] /\ Forall (fun c => Str.isspace_char c = false) (rev cur)).
  { intros u U N. split; [|apply Forall_rev; exact U].
    intros E. apply N. rewrite <- (rev_involutive u), E. reflexivity. }
  revert cur. induction s as [|c t IH]; intros cur C.
  - cbn [Str.split_from]. apply flush_words; [apply R; exact C | constructor].
  - cbn [Str.split_from]. destruct (Str.isspace_char c) eqn:E.
    + apply flush_words; [apply R; exact C | apply IH; constructor].
    + apply IH. constructor; assumption.
Qed.

(** X9: the words that the loop of [count_words] counts in a paragraph are
    never empty and hold alphanumeric characters only, and nothing
    alphanumeric is left out: written one after the other, the words are
    the paragraph without its characters that are not alphanumeric (or are
    whitespace). *)
Theorem paragraph_words_alphanumeric (ua : char -> bool) (para : str) :
  count_words_step ua para = length (paragraph_words ua para)
  /\ Forall (fun w =>
               w <> []
               /\ Forall (fun ch => Str.isalnum_char ua ch = true
                                    /\ Str.isspace_char ch = false) w)
            (paragraph_words ua para)
  /\ concat (paragraph_words ua para)
     = filter (fun ch => Str.isalnum_char ua ch && negb (Str.isspace_char ch)) para.
Proof.
  split; [reflexivity|].
  rewrite paragraph_words_tokens. unfold tokens, Str.split.
  set (g := fun ch => if Str.eqc ch Str.LF || negb (Str.isalnum_char ua ch)
                      then SP else ch).
  assert (C : concat (Str.split_from [] (map g para))
              = filter (fun ch => Str.isalnum_char ua ch && negb (Str.isspace_char ch))
                       para).
  { rewrite split_from_concat. cbn [rev app].
    induction para as [|ch t IH]; [reflexivity|].
    cbn [map filter]. rewrite IH. unfold g.
    destruct (Str.eqc ch Str.LF) eqn:E.
    - apply eqc_eq in E. subst ch. cbn [orb]. rewrite andb_false_r. reflexivity.
    - cbn [orb]. destruct (Str.isalnum_char ua ch); reflexivity. }
  split; [|exact C].
  pose proof (split_from_words (map g para) [] (Forall_nil _)) as W.
  rewrite Forall_forall in W. apply Forall_forall. intros w I.
  destruct (W w I) as [N S]. split; [exact N|].
  apply Forall_forall. intros ch J.
  assert (K : In ch (concat (Str.split_from [] (map g para)))).
  { apply in_concat. exists w. split; assumption. }
  rewrite C in K. apply filter_In in K. destruct K as [_ K].
  apply andb_true_iff in K. destruct K as [K1 K2].
  split; [exact K1 | apply negb_true_iff; exact K2].
Qed.

(** ** [count_words] on contents of whitespace only *)

Lemma findall_from_chars (s : str) (k : nat) (m : str) (x : char) :
  In m (Re.findall_from PARAGRAH_RE k s) -> In x m -> In x s.
Proof.
  revert k. induction s as [|c t IH]; intros k I J.
  - cbn [Re.findall_from] in I. rewrite match_here_candidate in I.
    destruct k; destruct I.
  - cbn [Re.findall_from] in I. destruct k as [|k]; [|right; exact (IH k I J)].
    rewrite match_here_candidate in I.
    destruct (candidate_at (c :: t)) as [m'|] eqn:M; [|right; exact (IH 0 I J)].
    destruct I as [<- | I]; [|right; exact (IH _ I J)].
    destruct (candidate_at_shape _ _ M) as [_ [left E]].
    rewrite E. apply in_or_app. left. exact J.
Qed.

Lemma keep_double_whitespace_bounded (n : nat) (s : str) :
  length s <= n -> all_whitespace s -> all_whitespace (keep_double_newlines s).
Proof.
  revert s. induction n as [|n IH]; intros s L W.
  - destruct s; [constructor | simpl in L; lia].
  - destruct s as [|c t]; [constructor|].
    destruct (Str.startswith (c :: t) DOUBLE_NEWLINE) eqn:D.
    + destruct (startswith_double_inv _ D) as [t' E]. injection E as -> ->.
      change (keep_double_newlines (Str.LF :: Str.LF :: t'))
        with (Str.LF :: Str.LF :: keep_double_newlines t').
      inversion W as [|? ? W1 W2]; subst. inversion W2 as [|? ? W3 W4]; subst.
      constructor; [exact W1|]. constructor; [exact W3|].
      apply IH; [simpl in L; lia | exact W4].
    + rewrite (keep_double_newlines_other _ _ D).
      inversion W as [|? ? W1 W2]; subst.
      constructor; [rewrite isspace_lf_to_space; exact W1|].
      apply IH; [simpl in L; lia | exact W2].
Qed.

Lemma split_all_whitespace (s : str) : all_whitespace s -> Str.split s = [].
Proof.
  unfold Str.split. induction 1 as [|c t C T IH]; [reflexivity|].
  cbn [Str.split_from]. rewrite C. exact IH.
Qed.

Lemma tokens_all_whitespace (ua : char -> bool) (p : str) :
  all_whitespace p -> tokens ua p = [].
Proof.
  intros W. unfold tokens. apply split_all_whitespace.
  induction W as [|c t C T IH]; constructor; [|exact IH].
  destruct (Str.eqc c Str.LF || negb (Str.isalnum_char ua c)); [reflexivity | exact C].
Qed.

(** X10: on contents of whitespace only, the empty contents included,
    [count_words] returns 0: every paragraph found there holds whitespace
    only and has no word. *)
Theorem count_words_blank_contents (ua : char -> bool) (contents : str) :
  all_whitespace contents ->
  count_words ua contents = Ok 0
  /\ Forall (fun p => all_whitespace p /\ paragraph_words ua p = [])
            (get_paragraphs contents false).
Proof.
  intros W.
  assert (F : Forall (fun p => all_whitespace p /\ paragraph_words ua p = [])
                (get_paragraphs contents false)).
  { apply Forall_forall. intros p I.
    rewrite get_paragraphs_eq in I. apply filter_In in I. destruct I as [I _].
    change (space_pass contents false) with contents in I.
    rewrite (newline_pass_bounded (length contents) contents (le_n _)
               (whitespace_no_sentinel _ W)) in I.
    pose proof (keep_double_whitespace_bounded (length contents) contents (le_n _) W)
      as K.
    assert (P : all_whitespace p).
    { apply Forall_forall. intros x J.
      apply (proj1 (Forall_forall _ _) K).
      exact (findall_from_chars _ 0 _ _ I J). }
    split; [exact P|].
    rewrite paragraph_words_tokens. apply tokens_all_whitespace. exact P. }
  split; [|exact F].
  rewrite count_words_eq.
  destruct (get_paragraphs contents false) as [|p l]; [reflexivity|].
  cbn [map Str.min]. f_equal.
  pose proof (fold_min_least
                (map (fun p0 => length (tokens ua p0)) l) (length (tokens ua p)))
    as [I _].
  change (In (fold_left Nat.min (map (fun p0 => length (tokens ua p0)) l)
                (length (tokens ua p)))
             (map (fun p0 => length (tokens ua p0)) (p :: l))) in I.
  apply in_map_iff in I. destruct I as [q [E I]].
  rewrite <- E. rewrite Forall_forall in F. destruct (F q I) as [_ Z].
  rewrite paragraph_words_tokens in Z. rewrite Z. reflexivity.
Qed.

Lemma count_words_blank_contents_witness :
  all_whitespace [9%N; Str.LF; Str.LF; SP]
  /\ count_words ascii_only [9%N; Str.LF; Str.LF; SP] = Ok 0.
Proof.
  assert (W : all_whitespace [9%N; Str.LF; Str.LF; SP]) by (repeat constructor).
  split; [exact W | exact (proj1 (count_words_blank_contents ascii_only _ W))].
Defined.

(** ** The lines of [get_line_list] *)

Lemma in_drop_trailing_empty (l : str) (L : list str) :
  In l (drop_trailing_empty L) -> In l L.
Proof.
  induction L as [|x L IH]; [trivial|].
  destruct L as [|y L].
  - destruct x; cbn; tauto.
  - rewrite drop_trailing_empty_cons by discriminate.
    intros [E | I]; [left; exact E | right; exact (IH I)].
Qed.

Lemma segments_pieces_bounded (n : nat) (s : str) :
  length s <= n ->
  (exists seg rest b, segments s = seg :: rest /\ s = seg ++ b)
  /\ Forall (fun l => Forall (fun x => Str.islinebreak x = false) l
                      /\ exists a b, s = a ++ l ++ b)
            (segments s).
Proof.
  revert s. induction n as [|n IH]; intros s L.
  - destruct s; [|simpl in L; lia]. split.
    + exists [], [], []. split; reflexivity.
    + constructor; [|constructor]. split; [constructor|]. exists [], []. reflexivity.
  - destruct s as [|c t]; [apply IH; simpl; lia|].
    simpl in L.
    assert (later : forall pre next, c :: t = pre ++ next -> length next <= n ->
              Forall (fun l => Forall (fun x => Str.islinebreak x = false) l
                               /\ exists a b, c :: t = a ++ l ++ b)
                     ([] :: segments next)).
    { intros pre next E Ln. constructor.
      - split; [constructor|]. exists [], (c :: t). reflexivity.
      - destruct (IH next Ln) as [_ F]. rewrite Forall_forall in F.
        apply Forall_forall. intros l I. destruct (F l I) as [B [a [b A]]].
        split; [exact B|]. exists (pre ++ a), b.
        rewrite E, A, <- app_assoc. reflexivity. }
    destruct (Str.islinebreak c) eqn:B.
    + split.
      * cbn [segments]. rewrite B. eexists [], _, (c :: t). split; reflexivity.
      * cbn [segments]. rewrite B.
        destruct (Str.eqc c Str.CR).
        -- destruct t as [|d t'].
           ++ apply (later [c] []); [reflexivity | simpl; lia].
           ++ destruct (Str.eqc d Str.LF).
              ** apply (later [c; d] t'); [reflexivity | simpl in L; lia].
              ** apply (later [c] (d :: t')); [reflexivity | lia].
        -- apply (later [c] t); [reflexivity | lia].
    + rewrite (segments_char _ _ B).
      destruct (IH t ltac:(lia)) as [[seg [rest [b [E A]]]] F].
      rewrite E in F |- *. cbn [prepend app].
      pose proof (Forall_inv F) as [F1 _]. pose proof (Forall_inv_tail F) as F2.
      split.
      * exists (c :: seg), rest, b. split; [reflexivity|].
        rewrite A at 1. reflexivity.
      * constructor.
        -- split; [constructor; assumption|]. exists [], b.
           rewrite A at 1. reflexivity.
        -- rewrite Forall_forall in F2. apply Forall_forall. intros l I.
           destruct (F2 l I) as [Bl [a' [b' A']]]. split; [exact Bl|].
           exists (c :: a'), b'. rewrite A' at 1. reflexivity.
Qed.

(** X11: every line that [get_line_list] returns is a piece of the
    contents as it stands there, holds no line break, and is not blank:
    it has a character that is not whitespace. *)
Theorem get_line_list_lines_are_pieces (content : str) :
  exists line_list,
    get_line_list content = Ok line_list
    /\ Forall (fun line =>
                 (exists a b, content = a ++ line ++ b)
                 /\ Forall (fun x => Str.islinebreak x = false) line
                 /\ Exists (fun x => Str.isspace_char x = false) line)
              line_list.
Proof.
  eexists. split; [apply get_line_list_lines|].
  apply Forall_forall. intros l I. apply filter_In in I. destruct I as [I N].
  apply in_drop_trailing_empty in I.
  destruct (segments_pieces_bounded (length content) content (le_n _)) as [_ F].
  rewrite Forall_forall in F. destruct (F l I) as [B A].
  split; [exact A|]. split; [exact B|].
  unfold blank in N. apply negb_true_iff in N.
  clear -N. induction l as [|x l IH]; [discriminate|].
  cbn [forallb] in N. destruct (Str.isspace_char x) eqn:E.
  - right. apply IH. exact N.
  - left. exact E.
Qed.

(** ** Contents written one after the other *)

Lemma prepend_app (p : str) (X Y : list str) :
  X <> [] -> prepend p (X ++ Y) = prepend p X ++ Y.
Proof. destruct X; [congruence | reflexivity]. Qed.

Lemma prepend_not_nil (p : str) (X : list str) : prepend p X <> [].
Proof. destruct X; discriminate. Qed.

Lemma segments_app_lf_bounded (n : nat) (a : str) :
  length a <= n ->
  exists X, X <> []
            /\ (segments a = X \/ segments a = X ++ [[]])
            /\ forall b, segments (a ++ Str.LF :: b) = X ++ segments b.
Proof.
  revert a. induction n as [|n IH]; intros a L.
  - destruct a; [|simpl in L; lia].
    exists [[]]. split; [discriminate|]. split; [left; reflexivity | reflexivity].
  - destruct a as [|c t]; [apply IH; simpl; lia|].
    simpl in L.
    assert (later : forall u, length u <= n ->
              exists X, X <> []
                /\ ([] :: segments u = X \/ [] :: segments u = X ++ [[]])
                /\ forall b, [] :: segments (u ++ Str.LF :: b) = X ++ segments b).
    { intros u Lu. destruct (IH u Lu) as [X [_ [H1 H2]]].
      exists ([] :: X). split; [discriminate|]. split.
      - destruct H1 as [-> | ->]; [left | right]; reflexivity.
      - intros b. rewrite H2. reflexivity. }
    destruct (Str.islinebreak c) eqn:B.
    + cbn [app segments]. rewrite B.
      destruct (Str.eqc c Str.CR).
      * destruct t as [|d t'].
        -- exists [[]]. split; [discriminate|]. split; [right; reflexivity|].
           intros b. cbn [app]. rewrite eqc_refl. reflexivity.
        -- cbn [app]. destruct (Str.eqc d Str.LF).
           ++ apply later. simpl in L. lia.
           ++ apply (later (d :: t')). lia.
      * apply later. lia.
    + destruct (IH t ltac:(lia)) as [X [N [H1 H2]]].
      exists (prepend [c] X). split; [apply prepend_not_nil|]. split.
      * rewrite (segments_char _ _ B).
        destruct H1 as [-> | ->]; [left; reflexivity | right; apply prepend_app; exact N].
      * intros b. change ((c :: t) ++ Str.LF :: b) with (c :: (t ++ Str.LF :: b)).
        rewrite (segments_char _ _ B), H2. apply prepend_app. exact N.
Qed.

Lemma filter_drop_trailing_empty (L : list str) :
  filter (fun line => negb (blank line)) (drop_trailing_empty L)
  = filter (fun line => negb (blank line)) L.
Proof.
  induction L as [|x L IH]; [reflexivity|].
  destruct L as [|y L].
  - destruct x; reflexivity.
  - rewrite drop_trailing_empty_cons by discriminate.
    cbn [filter] in *. rewrite IH. reflexivity.
Qed.

Lemma nonblank_lines_app (a b : str) :
  filter (fun line => negb (blank line)) (lines (a ++ NEWLINE ++ b))
  = filter (fun line => negb (blank line)) (lines a)
    ++ filter (fun line => negb (blank line)) (lines b).
Proof.
  unfold lines. rewrite !filter_drop_trailing_empty.
  destruct (segments_app_lf_bounded (length a) a (le_n _)) as [X [_ [H1 H2]]].
  change (NEWLINE ++ b) with (Str.LF :: b). rewrite H2, filter_app. f_equal.
  destruct H1 as [-> | ->]; [reflexivity|].
  rewrite filter_app. cbn [filter blank forallb negb]. rewrite app_nil_r. reflexivity.
Qed.

(** X12: the lines of two contents written one after the other with a
    line feed between them are the lines of the first followed by the
    lines of the second, whatever the first ends with and the second
    starts with; [count_lines] of literal contents adds up. *)
Theorem get_line_list_of_joined_contents (fs : FileSystem)
  (given_file containing_directory a b : str) :
  is_file fs (containing_directory ++ FILE_SEPARATOR ++ given_file) = false ->
  exists la lb,
    get_line_list a = Ok la /\ get_line_list b = Ok lb
    /\ get_line_list (a ++ NEWLINE ++ b) = Ok (la ++ lb)
    /\ count_lines fs given_file containing_directory a = Ok (length la)
    /\ count_lines fs given_file containing_directory b = Ok (length lb)
    /\ count_lines fs given_file containing_directory (a ++ NEWLINE ++ b)
       = Ok (length la + length lb).
Proof.
  intros F. eexists. eexists.
  split; [apply get_line_list_lines|]. split; [apply get_line_list_lines|].
  split; [rewrite get_line_list_lines, nonblank_lines_app; reflexivity|].
  rewrite !(count_lines_literal fs _ _ _ F), nonblank_lines_app, length_app.
  repeat split.
Qed.

Lemma get_line_list_of_joined_contents_witness :
  is_file no_files (lit "dir" ++ FILE_SEPARATOR ++ lit "f.md") = false
  /\ exists la lb,
       get_line_list (lit "one" ++ [Str.CR]) = Ok la
       /\ get_line_list (lit "two") = Ok lb
       /\ get_line_list ((lit "one" ++ [Str.CR]) ++ NEWLINE ++ lit "two")
          = Ok (la ++ lb).
Proof.
  split; [reflexivity|].
  destruct (get_line_list_of_joined_contents no_files (lit "f.md") (lit "dir")
              (lit "one" ++ [Str.CR]) (lit "two") eq_refl)
    as [la [lb [Ha [Hb [Hab _]]]]].
  exists la, lb. split; [exact Ha|]. split; [exact Hb | exact Hab].
Defined.

(** ** [count_specified_fragment]: absent fragments and a bound *)

Lemma contains_iff (s sub : str) :
  contains s sub = true <-> exists a b, s = a ++ sub ++ b.
Proof.
  split.
  - induction s as [|c t IH]; cbn [contains].
    + intros H. apply startswith_iff in H. destruct H as [r H].
      exists [], r. exact H.
    + intros H. apply orb_true_iff in H. destruct H as [H | H].
      * apply startswith_iff in H. destruct H as [r H]. exists [], r. exact H.
      * destruct (IH H) as [a [b E]]. exists (c :: a), b. rewrite E. reflexivity.
  - intros [a [b E]]. subst s. induction a as [|x a IH].
    + cbn [app]. destruct (sub ++ b) eqn:E; cbn [contains]; rewrite <- E.
      * apply startswith_app.
      * rewrite startswith_app. reflexivity.
    + cbn [app contains]. rewrite IH. apply orb_true_r.
Qed.

Lemma count_from_zero (sub s : str) :
  sub <> [] -> (Str.count_from sub 0 s = 0 <-> contains s sub = false).
Proof.
  intros N. induction s as [|c t IH].
  - destruct sub; [congruence|]. split; reflexivity.
  - cbn [Str.count_from contains].
    destruct (Str.startswith (c :: t) sub); cbn [orb]; [|exact IH].
    split; discriminate.
Qed.

(** X13: [count_specified_fragment] returns 0 exactly when the fragment
    occurs nowhere in the contents. *)
Theorem count_zero_iff_absent (contents fragment : str) :
  count_specified_fragment contents fragment = 0
  <-> ~ exists a b, contents = a ++ fragment ++ b.
Proof.
  unfold count_specified_fragment. rewrite <- contains_iff.
  destruct fragment as [|f fragment].
  - cbn [Str.count]. split; [discriminate|].
    intros H. exfalso. apply H. apply contains_iff.
    exists [], contents. reflexivity.
  - cbn [Str.count]. rewrite count_from_zero by discriminate.
    destruct (contains contents (f :: fragment)); split; congruence.
Qed.

Lemma startswith_length (s p : str) :
  Str.startswith s p = true -> length p <= length s.
Proof.
  intros H. apply startswith_iff in H. destruct H as [r ->].
  rewrite length_app. lia.
Qed.

Lemma count_from_bound (sub s : str) (k : nat) :
  sub <> [] ->
  Str.count_from sub k s * length sub <= length s - k.
Proof.
  intros N. revert k. induction s as [|c t IH]; intros k; [apply Nat.le_0_l|].
  cbn [Str.count_from]. destruct k as [|k]; [|apply (IH k)].
  destruct (Str.startswith (c :: t) sub) eqn:P.
  - apply startswith_length in P. specialize (IH (length sub - 1)).
    rewrite Nat.mul_succ_l. cbn [length] in *. lia.
  - specialize (IH 0). cbn [length]. lia.
Qed.

(** X14: the occurrences that [count_specified_fragment] counts fit in the
    contents side by side: the count times the length of the fragment is
    at most the length of the contents, so a fragment longer than the
    contents is counted 0 times. *)
Theorem count_fits_in_contents (contents fragment : str) :
  count_specified_fragment contents fragment * length fragment <= length contents
  /\ (length contents < length fragment ->
      count_specified_fragment contents fragment = 0).
Proof.
  assert (B : count_specified_fragment contents fragment * length fragment
              <= length contents).
  { unfold count_specified_fragment. destruct fragment as [|f fragment].
    - cbn [length]. lia.
    - cbn [Str.count].
      pose proof (count_from_bound (f :: fragment) contents 0 ltac:(discriminate)).
      lia. }
  split; [exact B|]. intros L.
  destruct (count_specified_fragment contents fragment) as [|m]; [reflexivity|].
  rewrite Nat.mul_succ_l in B. lia.
Qed.

(** ** The file and the literal contents *)

Lemma count_lines_file (fs : FileSystem) (given_file containing_directory text : str) :
  is_file fs (containing_directory ++ FILE_SEPARATOR ++ given_file) = true ->
  read_text fs (containing_directory ++ FILE_SEPARATOR ++ given_file) = Ok text ->
  count_lines fs given_file containing_directory NOTHING
  = Ok (length (filter (fun line => negb (blank line)) (lines text))).
Proof.
  intros F R. unfold count_lines. rewrite F, R. cbn [negb andb Str.is_empty NOTHING py_bind].
  rewrite get_line_list_lines. reflexivity.
Qed.

(** X15: counting the lines of a file is counting the lines of its text:
    with the file in place and no contents given, [count_lines] returns
    what it returns for the text of the file given as literal contents
    where there is no file - also when the file is empty. *)
Theorem count_lines_file_as_contents (fs fs' : FileSystem)
  (given_file containing_directory given_file' containing_directory' text : str) :
  is_file fs (containing_directory ++ FILE_SEPARATOR ++ given_file) = true ->
  read_text fs (containing_directory ++ FILE_SEPARATOR ++ given_file) = Ok text ->
  is_file fs' (containing_directory' ++ FILE_SEPARATOR ++ given_file') = false ->
  count_lines fs given_file containing_directory NOTHING
  = count_lines fs' given_file' containing_directory' text.
Proof.
  intros F R F'.
  rewrite (count_lines_file fs _ _ text F R), (count_lines_literal fs' _ _ text F').
  reflexivity.
Qed.

Lemma count_lines_file_as_contents_witness :
  (is_file dir_file (lit "dir" ++ FILE_SEPARATOR ++ lit "f.md") = true
   /\ read_text dir_file (lit "dir" ++ FILE_SEPARATOR ++ lit "f.md") = Ok (lit "aa")
   /\ is_file no_files (lit "x" ++ FILE_SEPARATOR ++ lit "y") = false)
  /\ count_lines dir_file (lit "f.md") (lit "dir") NOTHING
     = count_lines no_files (lit "y") (lit "x") (lit "aa").
Proof.
  split; [repeat split|].
  exact (count_lines_file_as_contents dir_file no_files (lit "f.md") (lit "dir")
           (lit "y") (lit "x") (lit "aa") eq_refl eq_refl eq_refl).
Defined.

(** X16: with the file in place and no contents given, [count_fragments]
    hands the text of the file to the checking function, and with no file
    and contents given it hands over the contents; the two agree whenever
    the text is not empty.  The text of an empty file is handed over as
    well, while empty literal contents are never checked and count as 0. *)
Theorem count_fragments_file_as_contents (fs fs' : FileSystem)
  (chosen_fragment : str) (checking_function : str -> str -> py nat)
  (given_file containing_directory given_file' containing_directory' text : str) :
  is_file fs (containing_directory ++ FILE_SEPARATOR ++ given_file) = true ->
  read_text fs (containing_directory ++ FILE_SEPARATOR ++ given_file) = Ok text ->
  is_file fs' (containing_directory' ++ FILE_SEPARATOR ++ given_file') = false ->
  count_fragments fs chosen_fragment checking_function
    given_file containing_directory NOTHING
  = checking_function text chosen_fragment
  /\ count_fragments fs' chosen_fragment checking_function
       given_file' containing_directory' text
     = match text with
       | [] => Ok 0
       | _ :: _ => checking_function text chosen_fragment
       end.
Proof.
  intros F R F'. unfold count_fragments. rewrite F, R, F'.
  split; [reflexivity|]. destruct text; reflexivity.
Qed.

Lemma count_fragments_file_as_contents_witness :
  (is_file dir_file (lit "dir" ++ FILE_SEPARATOR ++ lit "f.md") = true
   /\ read_text dir_file (lit "dir" ++ FILE_SEPARATOR ++ lit "f.md") = Ok (lit "aa")
   /\ is_file no_files (lit "x" ++ FILE_SEPARATOR ++ lit "y") = false)
  /\ count_fragments dir_file (lit "a") checking (lit "f.md") (lit "dir") NOTHING
     = Ok 2
  /\ count_fragments no_files (lit "a") checking (lit "y") (lit "x") (lit "aa")
     = Ok 2.
Proof.
  split; [repeat split|].
  exact (count_fragments_file_as_contents dir_file no_files (lit "a") checking
           (lit "f.md") (lit "dir") (lit "y") (lit "x") (lit "aa")
           eq_refl eq_refl eq_refl).
Defined.

(** X17: a file that is there but cannot be read is an error and not a
    count: with no contents given, the exception that reading the file
    raises is what [count_lines] and [count_fragments] raise, and the
    checking function is not called. *)
Theorem unreadable_file_raises (fs : FileSystem) (chosen_fragment : str)
  (checking_function : str -> str -> py nat)
  (given_file containing_directory : str) (e : exn) :
  is_file fs (containing_directory ++ FILE_SEPARATOR ++ given_file) = true ->
  read_text fs (containing_directory ++ FILE_SEPARATOR ++ given_file) = Raise e ->
  count_lines fs given_file containing_directory NOTHING = Raise e
  /\ count_fragments fs chosen_fragment checking_function
       given_file containing_directory NOTHING = Raise e.
Proof.
  intros F R. unfold count_lines, count_fragments. rewrite F, R.
  split; reflexivity.
Qed.

Lemma unreadable_file_raises_witness :
  (is_file (unreadable_file (lit "dir/f.md")) (lit "dir" ++ FILE_SEPARATOR ++ lit "f.md")
   = true
   /\ read_text (unreadable_file (lit "dir/f.md"))
        (lit "dir" ++ FILE_SEPARATOR ++ lit "f.md") = Raise UnicodeDecodeError)
  /\ count_lines (unreadable_file (lit "dir/f.md")) (lit "f.md") (lit "dir") NOTHING
     = Raise UnicodeDecodeError.
Proof.
  split; [split; reflexivity|].
  exact (proj1 (unreadable_file_raises (unreadable_file (lit "dir/f.md")) (lit "a")
                  checking (lit "f.md") (lit "dir") UnicodeDecodeError
                  eq_refl eq_refl)).
Defined.

(** ** The checks against an expected count *)

(** X18: on literal contents, where there is no file, the two checks put
    to the comparison the number of lines of the contents that are not
    blank, and what the checking function answers for the contents - or 0,
    without asking the checking function, when the contents are empty. *)
Theorem checks_on_literal_contents (Expected Verdict : Type)
  (greater_than_equal_exacted : nat -> Expected -> bool -> py Verdict)
  (fs : FileSystem) (chosen_fragment : str)
  (checking_function : str -> str -> py nat) (expected_count : Expected)
  (given_file containing_directory contents : str) (exact : bool) :
  is_file fs (containing_directory ++ FILE_SEPARATOR ++ given_file) = false ->
  specified_source_greater_than_count Expected Verdict greater_than_equal_exacted fs
    expected_count given_file containing_directory contents exact
  = greater_than_equal_exacted
      (length (filter (fun line => negb (blank line)) (lines contents)))
      expected_count exact
  /\ specified_fragment_greater_than_count Expected Verdict greater_than_equal_exacted fs
       chosen_fragment checking_function expected_count
       given_file containing_directory contents exact
     = match contents with
       | [] => greater_than_equal_exacted 0 expected_count exact
       | _ :: _ =>
           file_fragment_count <- checking_function contents chosen_fragment ;;
           greater_than_equal_exacted file_fragment_count expected_count exact
       end.
Proof.
  intros F. unfold specified_source_greater_than_count,
    specified_fragment_greater_than_count.
  rewrite (count_lines_literal fs _ _ contents F).
  split; [reflexivity|].
  unfold count_fragments. rewrite F. destruct contents; reflexivity.
Qed.

Lemma checks_on_literal_contents_witness :
  is_file no_files (lit "dir" ++ FILE_SEPARATOR ++ lit "f.md") = false
  /\ specified_source_greater_than_count nat bool at_least_or_exactly no_files
       2 (lit "f.md") (lit "dir") three_lines false
     = Ok true.
Proof.
  split; [reflexivity|].
  exact (proj1 (checks_on_literal_contents nat bool at_least_or_exactly no_files
                  (lit "a") checking 2 (lit "f.md") (lit "dir") three_lines false
                  eq_refl)).
Defined.

(** X19: when neither source applies - no file and no contents, or a file
    and contents both - the two checks put the count 0 to the comparison:
    a missing file is judged as a text with no line and no fragment. *)
Theorem checks_without_a_source (Expected Verdict : Type)
  (greater_than_equal_exacted : nat -> Expected -> bool -> py Verdict)
  (fs : FileSystem) (chosen_fragment : str)
  (checking_function : str -> str -> py nat) (expected_count : Expected)
  (given_file containing_directory contents : str) (exact : bool) :
  (is_file fs (containing_directory ++ FILE_SEPARATOR ++ given_file) = false
   /\ contents = NOTHING)
  \/ (is_file fs (containing_directory ++ FILE_SEPARATOR ++ given_file) = true
      /\ contents <> NOTHING) ->
  specified_source_greater_than_count Expected Verdict greater_than_equal_exacted fs
    expected_count given_file containing_directory contents exact
  = greater_than_equal_exacted 0 expected_count exact
  /\ specified_fragment_greater_than_count Expected Verdict greater_than_equal_exacted fs
       chosen_fragment checking_function expected_count
       given_file containing_directory contents exact
     = greater_than_equal_exacted 0 expected_count exact.
Proof.
  unfold specified_source_greater_than_count, specified_fragment_greater_than_count.
  intros [[F ->] | [F C]].
  - unfold count_lines, count_fragments. rewrite F. split; reflexivity.
  - rewrite (count_lines_both fs _ _ _ F C).
    rewrite (count_fragments_both fs _ _ _ _ _ F C). split; reflexivity.
Qed.

Lemma checks_without_a_source_witness :
  (is_file no_files (lit "dir" ++ FILE_SEPARATOR ++ lit "missing.md") = false
   /\ NOTHING = NOTHING)
  /\ specified_source_greater_than_count nat bool at_least_or_exactly no_files
       1 (lit "missing.md") (lit "dir") NOTHING false
     = Ok false
  /\ specified_fragment_greater_than_count nat bool at_least_or_exactly no_files
       (lit "a") checking 0 (lit "missing.md") (lit "dir") NOTHING true
     = Ok true.
Proof.
  split; [split; reflexivity|].
  pose proof (checks_without_a_source nat bool at_least_or_exactly no_files) as T.
  split.
  - apply (T (lit "a") checking 1 (lit "missing.md") (lit "dir") NOTHING false).
    left. split; reflexivity.
  - apply (T (lit "a") checking 0 (lit "missing.md") (lit "dir") NOTHING true).
    left. split; reflexivity.
Defined.

(** ** A paragraph segments into itself *)

Lemma take_run_of (run rest : str) :
  no_lf run -> (rest = [] \/ exists t, rest = Str.LF :: t) ->
  take_run (run ++ rest) = (run, rest).
Proof.
  intros N R. induction N as [|c t C T IH].
  - destruct R as [-> | [t ->]]; reflexivity.
  - cbn [app take_run]. rewrite C, IH. reflexivity.
Qed.

Lemma keep_double_newlines_run (run rest : str) :
  no_lf run ->
  keep_double_newlines (run ++ rest) = run ++ keep_double_newlines rest.
Proof.
  induction 1 as [|c t C T IH]; [reflexivity|].
  cbn [app keep_double_newlines]. rewrite C, IH. reflexivity.
Qed.

Lemma findall_candidate (run : str) (tail : str) :
  run <> [] -> no_lf run -> tail = [] \/ tail = LFLF ->
  Re.findall PARAGRAH_RE (run ++ tail) = [run ++ tail].
Proof.
  intros N L [-> | ->].
  - rewrite app_nil_r. apply findall_whole; assumption.
  - rewrite <- (app_nil_r (run ++ LFLF)) at 1.
    apply findall_step; [destruct run; [congruence | discriminate]|].
    rewrite app_nil_r, match_here_candidate. unfold candidate_at.
    rewrite (take_run_of run LFLF L) by (right; exists [Str.LF]; reflexivity).
    destruct run; [congruence | reflexivity].
Qed.

(** X20: segmenting is idempotent on its results: a paragraph that
    [get_paragraphs] returns, in either mode, and that does not hold the
    sentinel, is segmented again, with spaces kept, into that one
    paragraph. *)
Theorem paragraph_segments_into_itself (contents : str) (blank_replace : bool)
  (p : str) :
  In p (get_paragraphs contents blank_replace) ->
  contains p GATORGRADER_REPLACEMENT = false ->
  get_paragraphs p false = [p].
Proof.
  intros I G. rewrite get_paragraphs_eq in I.
  apply filter_In in I. destruct I as [I P].
  pose proof (findall_from_shape
                (newline_pass (space_pass contents blank_replace)) 0) as F.
  destruct (proj1 (Forall_forall _ _) F p I) as [run [N [L E]]].
  rewrite get_paragraphs_eq. change (space_pass p false) with p.
  rewrite (newline_pass_bounded (length p) p (le_n _) G).
  assert (K : keep_double_newlines p = p /\ Re.findall PARAGRAH_RE p = [p]).
  { destruct E as [-> | ->].
    - pose proof (keep_double_newlines_run run [] L) as Q.
      cbn [keep_double_newlines] in Q. rewrite !app_nil_r in Q.
      split; [exact Q | apply findall_whole; assumption].
    - rewrite (keep_double_newlines_run _ _ L). split; [reflexivity|].
      apply findall_candidate; [assumption | assumption | right; reflexivity]. }
  destruct K as [-> ->]. cbn [filter]. rewrite P. reflexivity.
Qed.

Lemma paragraph_segments_into_itself_witness :
  (In (lit "Hello world." ++ LFLF) (get_paragraphs hello_world false)
   /\ contains (lit "Hello world." ++ LFLF) GATORGRADER_REPLACEMENT = false)
  /\ get_paragraphs (lit "Hello world." ++ LFLF) false = [lit "Hello world." ++ LFLF].
Proof.
  assert (I : In (lit "Hello world." ++ LFLF) (get_paragraphs hello_world false))
    by (left; reflexivity).
  split; [split; [exact I | reflexivity]|].
  exact (paragraph_segments_into_itself hello_world false _ I eq_refl).
Defined.

(** ** The first paragraph and the rest *)

Lemma startswith_double_inside (c : char) (y rest : str) :
  y <> [] ->
  Str.startswith (c :: y ++ rest) DOUBLE_NEWLINE
  = Str.startswith (c :: y) DOUBLE_NEWLINE.
Proof. destruct y; [congruence | reflexivity]. Qed.

Lemma keep_double_newlines_block (a : str) (x : char) (b : str) :
  x <> Str.LF ->
  contains (a ++ [x]) DOUBLE_NEWLINE = false ->
  keep_double_newlines ((a ++ [x]) ++ DOUBLE_NEWLINE ++ b)
  = map lf_to_space (a ++ [x]) ++ DOUBLE_NEWLINE ++ keep_double_newlines b.
Proof.
  intros X. assert (E : Str.eqc x Str.LF = false).
  { destruct (Str.eqc x Str.LF) eqn:E; [apply eqc_eq in E; congruence | reflexivity]. }
  induction a as [|c a IH]; intros D.
  - change (([] ++ [x]) ++ DOUBLE_NEWLINE ++ b) with (x :: Str.LF :: Str.LF :: b).
    cbn [keep_double_newlines app map]. unfold lf_to_space.
    rewrite E, !eqc_refl. reflexivity.
  - destruct (contains_cons _ _ _ D) as [D0 Dt].
    change (((c :: a) ++ [x]) ++ DOUBLE_NEWLINE ++ b)
      with (c :: (a ++ [x]) ++ DOUBLE_NEWLINE ++ b).
    rewrite keep_double_newlines_other.
    + rewrite (IH Dt). reflexivity.
    + rewrite startswith_double_inside; [exact D0|].
      destruct a; discriminate.
Qed.

Lemma contains_app_r (x y sub : str) :
  contains (x ++ y) sub = false -> contains y sub = false.
Proof.
  induction x as [|c x IH]; [trivial|].
  intros H. apply IH. exact (proj2 (contains_cons _ _ _ H)).
Qed.

Lemma findall_first (m rest : str) :
  m <> [] -> no_lf m ->
  Re.findall PARAGRAH_RE ((m ++ LFLF) ++ rest)
  = (m ++ LFLF) :: Re.findall PARAGRAH_RE rest.
Proof.
  intros N L. apply findall_step; [destruct m; [congruence | discriminate]|].
  rewrite match_here_candidate. unfold candidate_at.
  rewrite <- app_assoc.
  rewrite (take_run_of m (LFLF ++ rest) L)
    by (right; exists (Str.LF :: rest); reflexivity).
  destruct m; [congruence | reflexivity].
Qed.

(** X21: the text before the first blank line is segmented on its own.
    When the contents start with a text that does not end in a line feed
    and has no double line feed, followed by a double line feed, and the
    sentinel is nowhere, [get_paragraphs] with spaces kept returns that
    text - its line feeds turned into spaces, the double line feed after
    it - if it is a paragraph, followed by the paragraphs of the rest. *)
Theorem get_paragraphs_first_block (a b : str) :
  last a Str.LF <> Str.LF ->
  contains a DOUBLE_NEWLINE = false ->
  contains (a ++ DOUBLE_NEWLINE ++ b) GATORGRADER_REPLACEMENT = false ->
  get_paragraphs (a ++ DOUBLE_NEWLINE ++ b) false
  = (if is_paragraph a then [map lf_to_space a ++ DOUBLE_NEWLINE] else [])
    ++ get_paragraphs b false.
Proof.
  intros X D G.
  destruct (exists_last (l := a)) as [a' [x E]].
  { intros ->. apply X. reflexivity. }
  subst a. rewrite last_last in X.
  rewrite !get_paragraphs_eq.
  change (space_pass ?c false) with c.
  rewrite (newline_pass_bounded _ _ (le_n _) G).
  rewrite (keep_double_newlines_block a' x b X D).
  rewrite <- (newline_pass_bounded (length b) b (le_n _)).
  - change DOUBLE_NEWLINE with LFLF. rewrite app_assoc.
    rewrite (findall_first (map lf_to_space (a' ++ [x])) (newline_pass b)).
    + cbn [filter].
      assert (P : is_paragraph (map lf_to_space (a' ++ [x]) ++ LFLF)
                  = is_paragraph (a' ++ [x])).
      { rewrite <- (is_paragraph_map (a' ++ [x])).
        unfold is_paragraph.
        change (map lf_to_space (a' ++ [x]) ++ LFLF)
          with ([] ++ map lf_to_space (a' ++ [x]) ++ LFLF).
        rewrite (strip_whitespace [] _ LFLF (Forall_nil _)); [reflexivity|].
        repeat constructor. }
      rewrite P.
      destruct (is_paragraph (a' ++ [x])); reflexivity.
    + rewrite map_app. intros Z. apply app_eq_nil in Z. destruct Z; discriminate.
    + apply no_lf_map.
  - apply (contains_app_r DOUBLE_NEWLINE). apply (contains_app_r (a' ++ [x])).
    exact G.
Qed.

Lemma get_paragraphs_first_block_witness :
  (last (lit "# Title") Str.LF <> Str.LF
   /\ contains (lit "# Title") DOUBLE_NEWLINE = false
   /\ contains (lit "# Title" ++ DOUBLE_NEWLINE ++ lit "Body text here.")
        GATORGRADER_REPLACEMENT = false)
  /\ get_paragraphs (lit "# Title" ++ DOUBLE_NEWLINE ++ lit "Body text here.") false
     = [lit "Body text here."].
Proof.
  assert (X : last (lit "# Title") Str.LF <> Str.LF) by discriminate.
  split; [split; [exact X | split; reflexivity]|].
  exact (get_paragraphs_first_block (lit "# Title") (lit "Body text here.")
           X eq_refl eq_refl).
Defined.

(** ** [count_specified_fragment] over contents written one after the other *)

Lemma count_from_mono (sub s : str) (k k' : nat) :
  sub <> [] -> k' <= k -> Str.count_from sub k s <= Str.count_from sub k' s.
Proof.
  intros N L. destruct (count_from_lower sub s k N) as [l [D E]].
  rewrite <- E. apply count_from_upper; [exact N|].
  apply (disjoint_weaken sub s k k'); assumption.
Qed.

Lemma count_from_lose_one (sub s : str) (k : nat) :
  sub <> [] -> k <= length sub ->
  Str.count_from sub 0 s <= S (Str.count_from sub k s).
Proof.
  intros N L. destruct (count_from_lower sub s 0 N) as [l [D E]].
  rewrite <- E. destruct l as [|i l]; [apply Nat.le_0_l|].
  cbn [length]. apply le_n_S. apply count_from_upper; [exact N|].
  destruct D as [_ [_ D]].
  apply (disjoint_weaken sub s (Nat.max (i + length sub) (S i)) k); [lia | exact D].
Qed.

Lemma count_from_skip_app (sub p s : str) (k : nat) :
  Str.count_from sub (length p + k) (p ++ s) = Str.count_from sub k s.
Proof. induction p as [|x p IH]; [reflexivity | exact IH]. Qed.

Lemma startswith_app_l (a b sub : str) :
  Str.startswith a sub = true -> Str.startswith (a ++ b) sub = true.
Proof.
  intros H. apply startswith_iff in H. destruct H as [r ->].
  rewrite <- app_assoc. apply startswith_app.
Qed.

Lemma startswith_app_inv (a b sub : str) :
  Str.startswith (a ++ b) sub = true -> length sub <= length a ->
  Str.startswith a sub = true.
Proof.
  intros H L. apply startswith_iff in H. destruct H as [r E].
  apply startswith_iff. exists (skipn (length sub) a).
  rewrite <- (firstn_skipn (length sub) a) at 1. f_equal.
  pose proof (f_equal (firstn (length sub)) E) as F.
  rewrite firstn_prefix, firstn_app in F.
  replace (length sub - length a) with 0 in F by lia.
  cbn [firstn] in F. rewrite app_nil_r in F. exact F.
Qed.

Lemma count_from_short (sub s : str) (k : nat) :
  sub <> [] -> length s < length sub -> Str.count_from sub k s = 0.
Proof.
  intros N L. pose proof (count_from_bound sub s k N) as B.
  destruct (Str.count_from sub k s); [reflexivity|].
  rewrite Nat.mul_succ_l in B. lia.
Qed.

Lemma count_from_app_upper (sub a b : str) (k : nat) :
  sub <> [] ->
  Str.count_from sub k (a ++ b)
  <= Str.count_from sub k a + 1 + Str.count_from sub 0 b.
Proof.
  intros N. revert k. induction a as [|c t IH]; intros k.
  - cbn [app Str.count_from]. pose proof (count_from_mono sub b k 0 N (Nat.le_0_l _)). lia.
  - change ((c :: t) ++ b) with (c :: (t ++ b)).
    cbn [Str.count_from]. destruct k as [|k]; [|apply IH].
    change (c :: t ++ b) with ((c :: t) ++ b).
    destruct (Str.startswith ((c :: t) ++ b) sub) eqn:P.
    + destruct (Str.startswith (c :: t) sub) eqn:Q.
      * specialize (IH (length sub - 1)). lia.
      * assert (S : length (c :: t) < length sub).
        { destruct (Nat.lt_ge_cases (length (c :: t)) (length sub)) as [S | S];
            [exact S|].
          rewrite (startswith_app_inv _ _ _ P S) in Q. discriminate. }
        cbn [length] in S.
        replace (length sub - 1) with (length t + (length sub - 1 - length t)) by lia.
        rewrite count_from_skip_app.
        pose proof (count_from_mono sub b (length sub - 1 - length t) 0 N
                      (Nat.le_0_l _)).
        lia.
    + destruct (Str.startswith (c :: t) sub) eqn:Q.
      * rewrite (startswith_app_l _ b _ Q) in P. discriminate.
      * apply IH.
Qed.

Lemma count_from_app_lower (sub a b : str) (k : nat) :
  sub <> [] -> k <= length a ->
  Str.count_from sub k a + Str.count_from sub 0 b
  <= Str.count_from sub k (a ++ b).
Proof.
  intros N. revert k. induction a as [|c t IH]; intros k L.
  - cbn [length] in L. replace k with 0 by lia. apply le_n.
  - change ((c :: t) ++ b) with (c :: (t ++ b)). cbn [length] in L.
    cbn [Str.count_from]. destruct k as [|k]; [|apply IH; lia].
    change (c :: t ++ b) with ((c :: t) ++ b).
    destruct (Str.startswith (c :: t) sub) eqn:Q.
    + rewrite (startswith_app_l _ b _ Q).
      pose proof (startswith_length _ _ Q) as S. cbn [length] in S.
      specialize (IH (length sub - 1) ltac:(lia)). lia.
    + destruct (Str.startswith ((c :: t) ++ b) sub) eqn:P.
      * assert (S : length (c :: t) < length sub).
        { destruct (Nat.lt_ge_cases (length (c :: t)) (length sub)) as [S | S];
            [exact S|].
          rewrite (startswith_app_inv _ _ _ P S) in Q. discriminate. }
        cbn [length] in S.
        rewrite (count_from_short sub t 0 N) by lia.
        replace (length sub - 1) with (length t + (length sub - 1 - length t)) by lia.
        rewrite count_from_skip_app.
        apply (count_from_lose_one sub b (length sub - 1 - length t) N). lia.
      * apply IH. lia.
Qed.

(** X22: over two contents written one after the other,
    [count_specified_fragment] of a fragment that is not empty loses no
    occurrence and gains at most one, the one that lies across the seam. *)
Theorem count_of_joined_contents (a b fragment : str) :
  fragment <> [] ->
  count_specified_fragment a fragment + count_specified_fragment b fragment
  <= count_specified_fragment (a ++ b) fragment
  /\ count_specified_fragment (a ++ b) fragment
     <= count_specified_fragment a fragment + count_specified_fragment b fragment + 1.
Proof.
  intros N. unfold count_specified_fragment.
  destruct fragment as [|f fragment]; [congruence|]. cbn [Str.count].
  split.
  - apply count_from_app_lower; [exact N | apply Nat.le_0_l].
  - pose proof (count_from_app_upper (f :: fragment) a b 0 N). lia.
Qed.

Lemma count_of_joined_contents_witness :
  lit "aa" <> []
  /\ count_specified_fragment (lit "a" ++ lit "a") (lit "aa") = 1
  /\ count_specified_fragment (lit "a") (lit "aa")
     + count_specified_fragment (lit "a") (lit "aa") + 1 = 1
  /\ count_specified_fragment (lit "a" ++ lit "a") (lit "aa")
     <= count_specified_fragment (lit "a") (lit "aa")
        + count_specified_fragment (lit "a") (lit "aa") + 1.
Proof.
  assert (N : lit "aa" <> []) by discriminate.
  split; [exact N|]. split; [reflexivity|]. split; [reflexivity|].
  exact (proj2 (count_of_joined_contents (lit "a") (lit "a") (lit "aa") N)).
Defined.

(** ** Lines and line feeds *)

(** C6 fails as stated: a vertical tab is no line feed, yet it ends a
    line.  Split at line feeds only, the contents are one line; the code
    counts two. *)
Lemma count_lines_cuts_at_vertical_tab :
  is_file no_files (lit "dir" ++ FILE_SEPARATOR ++ lit "f.md") = false
  /\ newline_lines tabbed_pair = [tabbed_pair]
  /\ length (filter (fun line => negb (blank line)) (newline_lines tabbed_pair)) = 1
  /\ get_line_list tabbed_pair = Ok [lit "a"; lit "b"]
  /\ count_lines no_files (lit "f.md") (lit "dir") tabbed_pair = Ok 2
  /\ count_lines no_files (lit "f.md") (lit "dir") tabbed_pair
     <> Ok (length (filter (fun line => negb (blank line))
                      (newline_lines tabbed_pair))).
Proof. repeat split; try reflexivity. vm_compute. discriminate. Qed.

(** ** The candidate trimmed of whitespace *)

Lemma lstrip_split (s : str) :
  exists w, all_whitespace w /\ s = w ++ Str.lstrip s.
Proof.
  induction s as [|c t [w [W E]]].
  - exists []. split; [constructor | reflexivity].
  - cbn [Str.lstrip]. destruct (Str.isspace_char c) eqn:C.
    + exists (c :: w). split; [constructor; assumption|].
      cbn [app]. rewrite <- E. reflexivity.
    + exists []. split; [constructor | reflexivity].
Qed.

Lemma lstrip_head (s : str) (c : char) (r : str) :
  Str.lstrip s = c :: r -> Str.isspace_char c = false.
Proof.
  induction s as [|x t IH]; [discriminate|].
  cbn [Str.lstrip]. destruct (Str.isspace_char x) eqn:X; [exact IH|].
  intros E. injection E as -> _. exact X.
Qed.

Lemma rstrip_split (s : str) :
  exists w, all_whitespace w /\ s = Str.rstrip s ++ w.
Proof.
  destruct (lstrip_split (rev s)) as [w [W E]].
  exists (rev w). split; [apply all_whitespace_rev; exact W|].
  unfold Str.rstrip. rewrite <- rev_app_distr, <- E, rev_involutive. reflexivity.
Qed.

Lemma rstrip_last (s : str) (d : char) :
  Str.rstrip s <> [] -> Str.isspace_char (last (Str.rstrip s) d) = false.
Proof.
  unfold Str.rstrip. destruct (Str.lstrip (rev s)) as [|c r] eqn:E;
    [intros N; destruct (N eq_refl)|].
  intros _. cbn [rev]. rewrite last_last. exact (lstrip_head _ _ _ E).
Qed.

Lemma all_whitespace_head (c : char) (r : str) :
  all_whitespace (c :: r) -> Str.isspace_char c = true.
Proof. intros W. exact (Forall_inv W). Qed.

Lemma strip_edges (s : str) : edge_not_space (Str.strip s).
Proof.
  unfold Str.strip.
  destruct (Str.lstrip s) as [|c r] eqn:L; [exact I|].
  pose proof (lstrip_head _ _ _ L) as C.
  destruct (rstrip_split (c :: r)) as [w [W E]].
  destruct (Str.rstrip (c :: r)) as [|x t] eqn:R.
  - cbn [app] in E. subst w. rewrite (all_whitespace_head _ _ W) in C. discriminate.
  - injection E as <- _. cbn [edge_not_space]. split; [exact C|].
    rewrite <- R. apply rstrip_last. rewrite R. discriminate.
Qed.

Lemma strip_trims (s : str) : trims_to s (Str.strip s).
Proof.
  destruct (lstrip_split s) as [w1 [W1 E1]].
  destruct (rstrip_split (Str.lstrip s)) as [w2 [W2 E2]].
  exists w1, w2. split; [exact W1|]. split; [exact W2|].
  split; [|apply strip_edges].
  unfold Str.strip. rewrite <- E2. exact E1.
Qed.

Lemma strip_edge_fixed (core : str) : edge_not_space core -> Str.strip core = core.
Proof.
  destruct core as [|c r]; [reflexivity|].
  cbn [edge_not_space]. intros [C L].
  unfold Str.strip. cbn [Str.lstrip]. rewrite C.
  destruct (exists_last (l := c :: r)) as [l [x E]]; [discriminate|].
  rewrite E in L |- *. rewrite last_last in L.
  unfold Str.rstrip. rewrite rev_app_distr. cbn [rev app Str.lstrip].
  rewrite L. cbn [rev]. rewrite rev_involutive. reflexivity.
Qed.

Lemma trims_to_strip (candidate core : str) :
  trims_to candidate core -> Str.strip candidate = core.
Proof.
  intros [w1 [w2 [W1 [W2 [-> E]]]]].
  rewrite (strip_whitespace _ _ _ W1 W2). apply strip_edge_fixed. exact E.
Qed.

Lemma is_paragraph_marked (candidate : str) :
  is_paragraph candidate = false <-> marked (Str.strip candidate).
Proof.
  rewrite is_paragraph_false. unfold marked.
  rewrite starts_with_hashes. unfold CODE_FENCE_MARKER.
  rewrite (startswith_iff (Str.strip candidate) (lit "```")). reflexivity.
Qed.

(** C5: [is_paragraph] answers false exactly when the candidate, trimmed of
    whitespace, starts with one or more [#] or with three backticks, and
    true for every other candidate.  The trimmed candidate is the
    candidate without the whitespace before and after it: what
    [is_paragraph] tests is that text, with no whitespace left at either
    end, and it is the only such text; so a header or a fence that is
    indented, or followed by whitespace, is no paragraph either. *)
Theorem is_paragraph_marker (candidate : str) :
  trims_to candidate (Str.strip candidate)
  /\ (forall core, trims_to candidate core ->
        (is_paragraph candidate = false <-> marked core)
        /\ (is_paragraph candidate = true <-> ~ marked core))
  /\ (is_paragraph candidate = false <-> starts_with_marker candidate)
  /\ (is_paragraph candidate = true <-> ~ starts_with_marker candidate)
  /\ is_paragraph (lit "  # Title") = false
  /\ is_paragraph ([9%N] ++ lit "```python" ++ LFLF) = false
  /\ is_paragraph (lit " a # b ") = true.
Proof.
  assert (E : is_paragraph candidate = false <-> marked (Str.strip candidate))
    by apply is_paragraph_marked.
  assert (T : is_paragraph candidate = true <-> ~ marked (Str.strip candidate)).
  { rewrite <- E. destruct (is_paragraph candidate); split; congruence. }
  split; [apply strip_trims|]. split.
  - intros core H. rewrite <- (trims_to_strip _ _ H). split; assumption.
  - split; [exact E|]. split; [exact T|]. repeat split.
Qed.
